(** * Image-Downloader (app.py): a shallow embedding and its properties

    The program is a Streamlit page that sequences three external services:
    the Pexels search API, the CLIP model and the zipfile library.  The
    embedding keeps the Python control flow (loops with [break] and early
    [return], [try]/[except], in-place list growth) and makes the outside
    world explicit:

    - [requests.get] is an oracle that reads and advances an abstract world;
    - every HTTP exchange and every Streamlit call is appended to a
      chronological event log, so that statements about "what was requested"
      and "what was reported" are statements about that log;
    - Python exceptions of class [Exception] are the [Raise] outcome; an
      exception while the body of a response is read counts as raised by the
      request;
    - the CLIP model is a pair of functions that may raise;
    - [st.image] is a function of the string it is given that may raise,
      as it does on a string that is neither a URL nor a file it can open;
      the other Streamlit calls of the page only log. *)

From Stdlib Require Import ZArith QArith Lia.
From stdpp Require Import base option list sorting strings gmap pretty.

Local Open Scope Z_scope.

(** ** Python values *)

(** The bytes of an HTTP body. *)
Definition bytes := list Byte.byte.

(** The result of running a Python expression: a value, or an exception
    carried as the text [str(e)]. *)
Inductive Outcome (A : Type) : Type :=
| Return (a : A)
| Raise (e : string).
Arguments Return {A} a.
Arguments Raise {A} e.

(** A Python [float]: a rational value, an infinity or NaN.  Every ordered
    comparison with NaN is [False]. *)
Inductive pyfloat : Type :=
| Finite (q : Q)
| PosInf
| NegInf
| NaN.

(** The literal [0.2]: the double nearest to 1/5, which is what
    [similarity > 0.2] compares with. *)
Definition literal_0_2 : Q := 3602879701896397 # 18014398509481984.

(** [x > c] for a float [x] and a finite constant [c]. *)
Definition float_gt (x : pyfloat) (c : Q) : bool :=
  match x with
  | Finite q => match (c ?= q)%Q with Lt => true | _ => false end
  | PosInf => true
  | NegInf => false
  | NaN => false
  end.

(** [range(a, b)]. *)
Definition py_range (a b : Z) : list Z :=
  (λ i : nat, a + Z.of_nat i) <$> seq 0 (Z.to_nat (b - a)).

(** [l[:n]]: the first [n] elements, or all but the last [-n] when [n] is
    negative. *)
Definition py_slice_to {A} (l : list A) (n : Z) : list A :=
  if 0 <=? n then take (Z.to_nat n) l
  else take (length l - Z.to_nat (- n)) l.

(** [len(l)] as a Python int. *)
Definition len {A} (l : list A) : Z := Z.of_nat (length l).

(** ** HTTP *)

(** One photo object of the search result; only its ["src"] dictionary of
    rendition URLs is read. *)
Record Photo : Type := { src : gmap string string }.

(** The decoded JSON body of a search response; ["photos"] may be absent. *)
Record JsonBody : Type := { photos : option (list Photo) }.

(** What the program reads of a [requests.Response]. *)
Record Response : Type := {
  status_code : Z;
  content : bytes;
  json : Outcome JsonBody
}.

(** The search parameters of a page request. *)
Record Params : Type := {
  param_query : string;
  param_per_page : Z;
  param_page : Z
}.

(** The arguments of one [requests.get] call. *)
Record Request : Type := {
  req_url : string;
  req_authorization : option (option string);
  req_params : option Params;
  req_stream : bool
}.

(** [requests.get(url, stream=True)], as both image loops call it. *)
Definition image_request (url : string) : Request :=
  {| req_url := url; req_authorization := None; req_params := None;
     req_stream := true |}.

(** ** The archive buffer *)

(** A [BytesIO] that a [ZipFile] writes to: the members written so far, in
    order, whether the archive has been closed (central directory written),
    and the stream position. *)
Record BytesIO : Type := {
  members : list (string * bytes);
  closed : bool;
  pos : nat
}.

(** ** Events *)

Inductive Event : Type :=
| HttpGet (rq : Request) (r : Outcome Response)
| StError (msg : string)
| StSidebarError (msg : string)
| StSpinner (msg : string)
| StSuccess (msg : string)
| StColumns (n : Z)
| StImage (col : Z) (url : string)
| StWrite (msg : string)
| StDownloadButton (label : string) (data : BytesIO) (file_name mime : string).

(** ** Program state *)

(** The state a run threads through: the world outside the process and the
    log of what the process did to it and showed to the user. *)
Record State (World : Type) : Type := { world : World; events : list Event }.
Arguments world {World} _.
Arguments events {World} _.

(** ** The page *)

(** What a run of the script renders; [App] carries what the button
    handler logs. *)
Inductive PageEvent : Type :=
| App (ev : Event)
| SetPageConfig (page_title page_icon layout : string)
| Markdown (body : string) (unsafe_allow_html : bool)
| SidebarTitle (body : string)
| SidebarTextInput (label : string)
| SidebarNumberInput (label : string) (min_value max_value value step : Z)
| SidebarSelectbox (label : string) (options : list string)
| SidebarCheckbox (label : string) (value : bool)
| SidebarButton (label : string).

(** What the user has entered in the sidebar when a run starts: the values
    the widgets return, and which button, by label, triggered the run. *)
Record Widgets : Type := {
  typed : string;
  number : Z;
  selected : string;
  checked : bool;
  clicked : string → bool
}.

(** The state of a run: the world, what has been rendered, and
    [st.session_state], whose only entry the script touches holds a list. *)
Record Page (World : Type) : Type := {
  page_world : World;
  page_log : list PageEvent;
  session_state : gmap string (list string)
}.
Arguments page_world {World} _.
Arguments page_log {World} _.
Arguments session_state {World} _.

(** How a statement of the script ends: normally, with an uncaught
    exception, or with the rerun request of [st.rerun()], which no
    [except Exception] catches. *)
Inductive Control (A : Type) : Type :=
| Next (a : A)
| Stop (e : string)
| Rerun.
Arguments Next {A} a.
Arguments Stop {A} e.
Arguments Rerun {A}.

(** ** A small world to run the program in *)

Module Demo.

(** A photo [name] with its four renditions. *)
Definition photo (name : string) : Photo :=
  {| src := {[ "small" := name +:+ "_small";
               "medium" := name +:+ "_medium";
               "large" := name +:+ "_large";
               "original" := name +:+ "_original" ]} |}.

Definition found (data : bytes) : Response :=
  {| status_code := 200; content := data; json := Raise "Expecting value" |}.

Definition not_found : Response :=
  {| status_code := 404; content := []; json := Raise "Expecting value" |}.

Definition page_of_two : Response :=
  {| status_code := 200; content := [];
     json := Return {| photos := Some [photo "cat"; photo "dog"] |} |}.

Definition too_many_requests : Response :=
  {| status_code := 429; content := []; json := Raise "Expecting value" |}.

(** The world is the number of requests answered so far.  The search API
    has one page of two photos and refuses every later page; the image
    host knows five URLs and is unreachable for every other one. *)
Definition get (rq : Request) (w : nat) : nat * Outcome Response :=
  (S w,
   match req_params rq with
   | Some p =>
       if param_page p =? 1 then Return page_of_two else Return too_many_requests
   | None =>
       if String.eqb (req_url rq) "a" then Return (found [Byte.x01])
       else if String.eqb (req_url rq) "b" then Return (found [Byte.x02])
       else if String.eqb (req_url rq) "c" then Return (found [Byte.x03])
       else if String.eqb (req_url rq) "d" then Return (found [Byte.x04])
       else if String.eqb (req_url rq) "gone" then Return not_found
       else Raise "Connection refused"
   end).

(** The model encodes every query of at most 77 characters. *)
Definition encode_text (query : string) : Outcome unit :=
  if (String.length query <=? 77)%nat then Return tt
  else Raise "Input is too long for context length 77".

(** The scores of the four images: 0.3, 0.1, 0.9 and 0.5. *)
Definition image_similarity (_ : unit) (data : bytes) : Outcome pyfloat :=
  match data with
  | [Byte.x01] => Return (Finite (3 # 10))
  | [Byte.x02] => Return (Finite (1 # 10))
  | [Byte.x03] => Return (Finite (9 # 10))
  | [Byte.x04] => Return (Finite (5 # 10))
  | _ => Raise "cannot identify image file"
  end.

Definition member_size (name : string) (data : bytes) : nat :=
  (30 + String.length name + length data)%nat.

Definition directory_size (ms : list (string * bytes)) : nat :=
  (22 + 46 * length ms)%nat.

(** Nothing requested, nothing logged. *)
Definition start : State nat := {| world := 0%nat; events := [] |}.

(** [st.image] here: a string is shown when it starts with a web or data
    scheme; any other string would have to be a file, and there is none. *)
Definition st_image (url : string) : Outcome unit :=
  if String.prefix "https://" url || String.prefix "http://" url || String.prefix "data:" url
  then Return tt
  else Raise ("Error opening '" +:+ url +:+ "'").

End Demo.

(** ** Other worlds *)

Module Worlds.

(** A host that answers every request with status 404 and a stock picture
    (the first of the four images that [Demo.image_similarity] knows). *)
Definition missing : Response :=
  {| status_code := 404; content := [Byte.x01]; json := Raise "Expecting value" |}.

Definition placeholder_get (rq : Request) (w : nat) : nat * Outcome Response :=
  (S w, Return missing).

(** No network: every request raises. *)
Definition offline_get (rq : Request) (w : nat) : nat * Outcome Response :=
  (S w, Raise "Connection refused").

(** A search API that refuses every request. *)
Definition busy_get (rq : Request) (w : nat) : nat * Outcome Response :=
  (S w, Return Demo.too_many_requests).

(** A search API whose second photo has no rendition but the original. *)
Definition partial_page : Response :=
  {| status_code := 200; content := [];
     json := Return {| photos := Some [Demo.photo "cat";
                                       {| src := {[ "original" := "dog_original" ]} |}] |} |}.

Definition partial_get (rq : Request) (w : nat) : nat * Outcome Response :=
  (S w, Return partial_page).

(** A photo whose renditions are all the same URL. *)
Definition stock_photo (url : string) : Photo :=
  {| src := {[ "small" := url; "medium" := url; "large" := url; "original" := url ]} |}.

(** The web: the search finds two photos whose renditions are all the same
    https URL, and the image host serves the first with a picture that
    scores 0.3 and the second with one that scores 0.1. *)
Definition cat_url : string := "https://images.example/cat.jpg".
Definition dog_url : string := "https://images.example/dog.jpg".

Definition web_page : Response :=
  {| status_code := 200; content := [];
     json := Return {| photos := Some [stock_photo cat_url; stock_photo dog_url] |} |}.

Definition web_get (rq : Request) (w : nat) : nat * Outcome Response :=
  (S w,
   match req_params rq with
   | Some _ => Return web_page
   | None =>
       if String.eqb (req_url rq) cat_url then Return (Demo.found [Byte.x01])
       else if String.eqb (req_url rq) dog_url then Return (Demo.found [Byte.x02])
       else Raise "Connection refused"
   end).

End Worlds.

Section App.

(** The state of everything outside the process. *)
Context {World : Type}.

(** [requests.get]: answers a request and advances the world. *)
Variable requests_get : Request → World → World * Outcome Response.

(** [os.getenv("PEXELS_API_KEY")]. *)
Variable PEXELS_API_KEY : option string.

(** The CLIP model.  [encode_text] stands for tokenising, encoding and
    normalising the query (lines 51-52); [image_similarity] for decoding
    the image bytes, preprocessing, encoding, normalising and taking the
    dot product with the query embedding (lines 57-63). *)
Context {Tensor : Type}.
Variable encode_text : string → Outcome Tensor.
Variable image_similarity : Tensor → bytes → Outcome pyfloat.

(** The zipfile library: the number of bytes a member occupies in the
    stream, and the size of the central directory written on close. *)
Variable member_size : string → bytes → nat.
Variable directory_size : list (string * bytes) → nat.

(** [st.image(url, use_container_width=True)] on a string: Streamlit shows
    what it takes for a URL or can open as a file and raises on anything
    else; the call is in no [try]. *)
Variable st_image : string → Outcome unit.

(** *** The program monad: state and exceptions *)

Definition M (A : Type) : Type := State World → State World * Outcome A.

Definition ret {A} (a : A) : M A := λ s, (s, Return a).

Definition bind {A B} (m : M A) (k : A → M B) : M B :=
  λ s, match m s with
       | (s', Return a) => k a s'
       | (s', Raise e) => (s', Raise e)
       end.

Definition raise {A} (e : string) : M A := λ s, (s, Raise e).

(** [try: body except Exception as e: handler e]. *)
Definition try_except {A} (body : M A) (handler : string → M A) : M A :=
  λ s, match body s with
       | (s', Return a) => (s', Return a)
       | (s', Raise e) => handler e s'
       end.

(** Evaluate a pure expression that may raise. *)
Definition eval {A} (o : Outcome A) : M A := λ s, (s, o).

(** Append an event to the log. *)
Definition emit (ev : Event) : M unit :=
  λ s, ({| world := world s; events := events s ++ [ev] |}, Return tt).

(** [requests.get(...)]: ask the oracle, log the exchange. *)
Definition http_get (rq : Request) : M Response :=
  λ s, let '(w, r) := requests_get rq (world s) in
       ({| world := w; events := events s ++ [HttpGet rq r] |}, r).

Local Notation "'let*' x ':=' m 'in' k" := (bind m (λ x, k))
  (at level 10, x name, m at level 100, k at level 200).
Local Notation "'do' m 'in' k" := (bind m (λ _, k))
  (at level 10, m at level 100, k at level 200).

(** *** fetch_image_urls (lines 19-47) *)

Definition PEXELS_URL : string := "https://api.pexels.com/v1/search".

(** [d[key]] on a dictionary of strings; a missing key raises [KeyError],
    whose text is the quoted key. *)
Definition dict_item (d : gmap string string) (key : string) : M string :=
  match d !! key with
  | Some v => ret v
  | None => raise ("'" +:+ key +:+ "'")
  end.

(** The body of the inner loop (lines 32-39): the URL that is appended for
    one photo. *)
Definition photo_url (resolution : string) (img : Photo) : M string :=
  if String.eqb resolution "640x480" then dict_item (src img) "small"
  else if String.eqb resolution "1280x720" then dict_item (src img) "medium"
  else if String.eqb resolution "1920x1080" then dict_item (src img) "large"
  else dict_item (src img) "original".

(** The inner loop (lines 31-39), growing [image_urls] in place. *)
Fixpoint append_photos (resolution : string) (imgs : list Photo)
    (image_urls : list string) : M (list string) :=
  match imgs with
  | [] => ret image_urls
  | img :: rest =>
      let* u := photo_url resolution img in
      append_photos resolution rest (image_urls ++ [u])
  end.

(** How the page loop was left: by [return v], or by running out of pages
    or [break] with the list collected so far. *)
Inductive LoopExit : Type :=
| Returned (v : list string)
| Finished (image_urls : list string).

(** The page loop (lines 25-45) over the remaining page numbers. *)
Fixpoint fetch_pages (query : string) (num_images : Z) (resolution : string)
    (per_page : Z) (pages : list Z) (image_urls : list string) : M LoopExit :=
  match pages with
  | [] => ret (Finished image_urls)
  | page :: rest =>
      let* response := http_get
        {| req_url := PEXELS_URL;
           req_authorization := Some PEXELS_API_KEY;
           req_params := Some {| param_query := query;
                                 param_per_page := Z.min per_page (num_images - len image_urls);
                                 param_page := page |};
           req_stream := false |} in
      if status_code response =? 200 then
        let* results := eval (json response) in
        let* image_urls := append_photos resolution (default [] (photos results)) image_urls in
        if len image_urls >=? num_images then ret (Finished image_urls)
        else fetch_pages query num_images resolution per_page rest image_urls
      else
        do emit (StError ("Failed to fetch images: " +:+ pretty (status_code response))) in
        ret (Returned [])
  end.

Definition fetch_image_urls (query : string) (num_images : Z) (resolution : string)
    : M (list string) :=
  let per_page := 80 in
  let pages := (num_images / per_page) + 1 in
  let* exit := fetch_pages query num_images resolution per_page (py_range 1 (pages + 1)) [] in
  match exit with
  | Returned v => ret v
  | Finished image_urls => ret (py_slice_to image_urls num_images)
  end.

(** *** filter_images (lines 49-70) *)

(** The loop of lines 54-68, growing [filtered_urls] in place. *)
Fixpoint filter_loop (query_embedding : Tensor) (image_urls filtered_urls : list string)
    : M (list string) :=
  match image_urls with
  | [] => ret filtered_urls
  | url :: rest =>
      let* filtered_urls :=
        try_except
          (let* response := http_get (image_request url) in
           let* similarity := eval (image_similarity query_embedding (content response)) in
           if float_gt similarity literal_0_2 then ret (filtered_urls ++ [url])
           else ret filtered_urls)
          (λ e, do emit (StError ("Error processing image: " +:+ e)) in
                ret filtered_urls) in
      filter_loop query_embedding rest filtered_urls
  end.

Definition filter_images (image_urls : list string) (query : string) : M (list string) :=
  let* query_embedding := eval (encode_text query) in
  filter_loop query_embedding image_urls [].

(** *** download_images_as_zip (lines 72-86) *)

Definition new_buffer : BytesIO := {| members := []; closed := false; pos := 0 |}.

(** [zip_file.writestr(name, data)]. *)
Definition writestr (b : BytesIO) (name : string) (data : bytes) : BytesIO :=
  {| members := members b ++ [(name, data)];
     closed := closed b;
     pos := (pos b + member_size name data)%nat |}.

(** Leaving the [with zipfile.ZipFile(...)] block closes the archive. *)
Definition zip_close (b : BytesIO) : BytesIO :=
  {| members := members b;
     closed := true;
     pos := (pos b + directory_size (members b))%nat |}.

(** [zip_buffer.seek(n)]. *)
Definition seek (b : BytesIO) (n : nat) : BytesIO :=
  {| members := members b; closed := closed b; pos := n |}.

(** The member name [f"image_{i+1}.jpg"]. *)
Definition member_name (i : Z) : string := "image_" +:+ pretty (i + 1) +:+ ".jpg".

(** The loop of lines 76-83; [i] is the index [enumerate] has reached. *)
Fixpoint zip_loop (i : Z) (image_urls : list string) (zip_buffer : BytesIO) : M BytesIO :=
  match image_urls with
  | [] => ret zip_buffer
  | url :: rest =>
      let* zip_buffer :=
        try_except
          (let* response := http_get (image_request url) in
           if status_code response =? 200 then
             let img_data := content response in
             ret (writestr zip_buffer (member_name i) img_data)
           else ret zip_buffer)
          (λ e, do emit (StError ("Error downloading image " +:+ pretty (i + 1)
                                  +:+ ": " +:+ e)) in
                ret zip_buffer) in
      zip_loop (i + 1) rest zip_buffer
  end.

Definition download_images_as_zip (image_urls : list string) : M BytesIO :=
  let zip_buffer := new_buffer in
  let* zip_buffer := zip_loop 0 image_urls zip_buffer in
  let zip_buffer := zip_close zip_buffer in
  ret (seek zip_buffer 0).

(** *** The "Fetch Images" button handler (lines 99-127) *)

Definition MAX_DISPLAY : Z := 20.

(** [st.columns(n)]: creates [n] columns and returns them; raises unless
    [n] is positive (the handler never gets there: it asks for at least one
    column).  The returned value stands for [len(cols)]. *)
Definition st_columns (n : Z) : M Z :=
  if n <=? 0 then raise "StreamlitInvalidColumnSpecError"
  else do emit (StColumns n) in ret n.

(** [with cols[col]: st.image(url, use_container_width=True)]: the image
    is shown in the column unless Streamlit raises on it. *)
Definition show_image (col : Z) (url : string) : M unit :=
  do eval (st_image url) in
  emit (StImage col url).

(** The preview loop of lines 115-117. *)
Fixpoint show_loop (len_cols : Z) (i : Z) (image_urls : list string) : M unit :=
  match image_urls with
  | [] => ret tt
  | url :: rest =>
      do show_image (i mod len_cols) url in
      show_loop len_cols (i + 1) rest
  end.

(** The [with st.spinner(...)] block of lines 103-107. *)
Definition fetch_block (query : string) (num_images : Z) (resolution : string)
    (ai_filter : bool) : M (list string) :=
  do emit (StSpinner "Fetching images...") in
  let* image_urls := fetch_image_urls query num_images resolution in
  if ai_filter then filter_images image_urls query
  else ret image_urls.

(** Lines 109-127, run when [image_urls] is truthy. *)
Definition show_block (query : string) (image_urls : list string) : M unit :=
  do emit (StSuccess ("Fetched " +:+ pretty (len image_urls)
                      +:+ " images successfully! 🎉")) in
  let* len_cols := st_columns (Z.min 5 (len image_urls)) in
  do show_loop len_cols 0 (py_slice_to image_urls MAX_DISPLAY) in
  do emit (StWrite ("Showing " +:+ pretty (Z.min (len image_urls) MAX_DISPLAY)
                    +:+ " out of " +:+ pretty (len image_urls) +:+ " images.")) in
  let* zip_buffer := download_images_as_zip image_urls in
  emit (StDownloadButton "📥 Download All Images as ZIP" zip_buffer
          (query +:+ "_images.zip") "application/zip").

(** The body of [if st.sidebar.button("Fetch Images"):]. *)
Definition fetch_button_handler (query : string) (num_images : Z)
    (resolution : string) (ai_filter : bool) : M unit :=
  if String.eqb query "" then emit (StSidebarError "Please enter a keyword.")
  else
    let* image_urls := fetch_block query num_images resolution ai_filter in
    match image_urls with
    | [] => ret tt
    | _ :: _ => show_block query image_urls
    end.

(** *** The page script (lines 88-99 and 129-166) *)

(** The script runs in the page monad: state, uncaught exceptions and
    rerun requests. *)
Definition P (A : Type) : Type := Page World → Page World * Control A.

Definition page_ret {A} (a : A) : P A := λ p, (p, Next a).

Definition page_bind {A B} (m : P A) (k : A → P B) : P B :=
  λ p, match m p with
       | (p', Next a) => k a p'
       | (p', Stop e) => (p', Stop e)
       | (p', Rerun) => (p', Rerun)
       end.

Local Notation "'let+' x ':=' m 'in' k" := (page_bind m (λ x, k))
  (at level 10, x name, m at level 100, k at level 200).
Local Notation "'do+' m 'in' k" := (page_bind m (λ _, k))
  (at level 10, m at level 100, k at level 200).

Definition render (ev : PageEvent) : P unit :=
  λ p, ({| page_world := page_world p; page_log := page_log p ++ [ev];
           session_state := session_state p |}, Next tt).

(** Run a piece of the program on the page: its events are rendered, an
    exception it raises is uncaught. *)
Definition run {A} (m : M A) : P A :=
  λ p, let '(s, r) := m {| world := page_world p; events := [] |} in
       ({| page_world := world s; page_log := page_log p ++ (App <$> events s);
           session_state := session_state p |},
        match r with Return a => Next a | Raise e => Stop e end).

(** [st.session_state.key = value]. *)
Definition set_session_state (key : string) (value : list string) : P unit :=
  λ p, ({| page_world := page_world p; page_log := page_log p;
           session_state := <[key := value]> (session_state p) |}, Next tt).

(** [st.rerun()]. *)
Definition st_rerun {A} : P A := λ p, (p, Rerun).

(** The double quote, for texts that contain it. *)
Definition dquote : string := String (Ascii.ascii_of_nat 34) EmptyString.

Definition footer_style : string :=
"
    <style>
        .footer {
            position: fixed;
            bottom: 0;
            left: 0;
            width: 100%;
            background-color: #F0F2F6;
            text-align: center;
            padding: 12px;
            font-size: 16px;
            font-weight: bold;
            color: #333; /* Darker text for contrast */
            border-top: 1px solid #ddd; /* Subtle top border */
            box-shadow: 0px -2px 5px rgba(0, 0, 0, 0.1); /* Soft shadow */
            z-index: 1000;
        }
        .footer a {
            text-decoration: none;
            color: #007BFF; 
            font-weight: bold;
            margin-left: 6px;
        }
        /* Push content up so footer doesn't overlap */
        .stApp {
            padding-bottom: 60px;
        }
    </style>
    <div class=" +:+ dquote +:+ "footer" +:+ dquote +:+ ">
        Developed by  
        <a href=" +:+ dquote +:+ "https://github.com/ARPurohit07" +:+ dquote +:+
" target=" +:+ dquote +:+ "_blank" +:+ dquote +:+ ">ARPurohit07</a>
    </div>
".

(** The script, top to bottom, for the widget values [inp]. *)
Definition script (inp : Widgets) : P unit :=
  do+ render (SetPageConfig "Image Downloader" "📸" "wide") in
  do+ render (Markdown "<h1 style='text-align: center;'>📷 Image Downloader</h1>" true) in
  do+ render (SidebarTitle "🔍 Image Search Settings") in
  let+ query := (do+ render (SidebarTextInput "Enter search keyword:") in
                 page_ret (typed inp)) in
  let+ num_images := (do+ render (SidebarNumberInput "Number of images:" 1 1000 10 10) in
                      page_ret (number inp)) in
  let+ resolution :=
    (do+ render (SidebarSelectbox "Select Resolution:"
                   ["640x480"; "1280x720"; "1920x1080"; "Original"]) in
     page_ret (selected inp)) in
  let+ ai_filter := (do+ render (SidebarCheckbox "Use AI Filtering (Recommended)" true) in
                     page_ret (checked inp)) in
  let+ fetch := (do+ render (SidebarButton "Fetch Images") in
                 page_ret (clicked inp "Fetch Images")) in
  do+ (if fetch then run (fetch_button_handler query num_images resolution ai_filter)
       else page_ret tt) in
  let+ clear := (do+ render (SidebarButton "Clear Images") in
                 page_ret (clicked inp "Clear Images")) in
  do+ (if clear then
         do+ set_session_state "image_urls" [] in
         st_rerun
       else page_ret tt) in
  render (Markdown footer_style true).

(** ** Specification vocabulary *)

(** The key of the ["src"] dictionary that a resolution stands for. *)
Definition rendition_table : gmap string string :=
  list_to_map [("640x480", "small"); ("1280x720", "medium"); ("1920x1080", "large")].

Definition src_key (resolution : string) : string :=
  default "original" (rendition_table !! resolution).

(** The URL of a photo at a resolution, when the photo has it. *)
Definition rendition (resolution : string) (img : Photo) : option string :=
  src img !! src_key resolution.

(** The photos that one event delivers to the page loop: those of a
    decoded 200 response. *)
Definition delivered (ev : Event) : list Photo :=
  match ev with
  | HttpGet _ (Return resp) =>
      if status_code resp =? 200 then
        match json resp with
        | Return body => default [] (photos body)
        | Raise _ => []
        end
      else []
  | _ => []
  end.

(** All photos received in a stretch of the log, in order. *)
Definition received (evs : list Event) : list Photo := evs ≫= delivered.

Definition is_request (ev : Event) : bool :=
  match ev with HttpGet _ _ => true | _ => false end.

(** The number of HTTP requests in a stretch of the log. *)
Definition requests (evs : list Event) : nat := length (filter is_request evs).

(** The request that the page loop sends for [page] when [image_urls] have
    been collected. *)
Definition page_request (query : string) (num_images per_page page : Z)
    (image_urls : list string) : Request :=
  {| req_url := PEXELS_URL;
     req_authorization := Some PEXELS_API_KEY;
     req_params := Some {| param_query := query;
                           param_per_page := Z.min per_page (num_images - len image_urls);
                           param_page := page |};
     req_stream := false |}.

(** The text of the [KeyError] for a missing rendition. *)
Definition key_error (resolution : string) : string :=
  "'" +:+ src_key resolution +:+ "'".

(** The runs of the page loop: from the remaining pages and the URLs
    collected so far, the events it appends and how it ends.  One rule per
    path through the loop body. *)
Inductive pages_run (query : string) (num_images : Z) (resolution : string)
    (per_page : Z) : list Z → list string → list Event → Outcome LoopExit → Prop :=
| run_exhausted urls :
    pages_run query num_images resolution per_page [] urls [] (Return (Finished urls))
| run_get_raises page rest urls e :
    pages_run query num_images resolution per_page (page :: rest) urls
      [HttpGet (page_request query num_images per_page page urls) (Raise e)] (Raise e)
| run_refused page rest urls resp
    (Hcode : status_code resp ≠ 200) :
    pages_run query num_images resolution per_page (page :: rest) urls
      [HttpGet (page_request query num_images per_page page urls) (Return resp);
       StError ("Failed to fetch images: " +:+ pretty (status_code resp))]
      (Return (Returned []))
| run_json_raises page rest urls resp e
    (Hcode : status_code resp = 200) (Hjson : json resp = Raise e) :
    pages_run query num_images resolution per_page (page :: rest) urls
      [HttpGet (page_request query num_images per_page page urls) (Return resp)] (Raise e)
| run_key_error page rest urls resp body img
    (Hcode : status_code resp = 200) (Hjson : json resp = Return body)
    (Himg : img ∈ default [] (photos body)) (Hkey : rendition resolution img = None) :
    pages_run query num_images resolution per_page (page :: rest) urls
      [HttpGet (page_request query num_images per_page page urls) (Return resp)]
      (Raise (key_error resolution))
| run_break page rest urls resp body urls'
    (Hcode : status_code resp = 200) (Hjson : json resp = Return body)
    (Hurls : Some <$> urls' =
               (Some <$> urls) ++ (rendition resolution <$> default [] (photos body)))
    (Hlen : num_images ≤ len urls') :
    pages_run query num_images resolution per_page (page :: rest) urls
      [HttpGet (page_request query num_images per_page page urls) (Return resp)]
      (Return (Finished urls'))
| run_next page rest urls resp body urls' evs out
    (Hcode : status_code resp = 200) (Hjson : json resp = Return body)
    (Hurls : Some <$> urls' =
               (Some <$> urls) ++ (rendition resolution <$> default [] (photos body)))
    (Hlen : len urls' < num_images)
    (Hrest : pages_run query num_images resolution per_page rest urls' evs out) :
    pages_run query num_images resolution per_page (page :: rest) urls
      (HttpGet (page_request query num_images per_page page urls) (Return resp) :: evs) out.

(** A request was answered with a status other than 200. *)
Definition refused (ev : Event) : bool :=
  match ev with
  | HttpGet _ (Return resp) => negb (status_code resp =? 200)
  | _ => false
  end.

(** What the world answers when the URLs are requested one after the
    other, starting from world [w]. *)
Fixpoint answers (urls : list string) (w : World) : list (Outcome Response) :=
  match urls with
  | [] => []
  | url :: rest =>
      let '(w', r) := requests_get (image_request url) w in
      r :: answers rest w'
  end.

(** The world after those requests. *)
Fixpoint world_after (urls : list string) (w : World) : World :=
  match urls with
  | [] => w
  | url :: rest => world_after rest (requests_get (image_request url) w).1
  end.

(** The exception, if any, that processing an answered image raises in
    [filter_images]: the request's own, or the model's. *)
Definition scoring_error (emb : Tensor) (o : Outcome Response) : option string :=
  match o with
  | Raise e => Some e
  | Return r =>
      match image_similarity emb (content r) with
      | Raise e => Some e
      | Return _ => None
      end
  end.

(** The model's score of an answered image. *)
Definition score (emb : Tensor) (o : Outcome Response) : option pyfloat :=
  match o with
  | Raise _ => None
  | Return r =>
      match image_similarity emb (content r) with
      | Raise _ => None
      | Return x => Some x
      end
  end.

(** A float is strictly greater than the rational [c]. *)
Definition exceeds (c : Q) (x : pyfloat) : Prop :=
  match x with
  | Finite q => (c < q)%Q
  | PosInf => True
  | NegInf | NaN => False
  end.

(** The image has a score and it is strictly greater than 0.2. *)
Definition scores_above (emb : Tensor) (o : Outcome Response) : bool :=
  match score emb o with
  | Some x => float_gt x literal_0_2
  | None => false
  end.

(** The download succeeded with status 200. *)
Definition ok200 (o : Outcome Response) : option Response :=
  match o with
  | Return r => if status_code r =? 200 then Some r else None
  | Raise _ => None
  end.

(** The log that [filter_images] leaves for the URLs and their answers:
    the request, and a report when processing raised. *)
Definition filter_trace (emb : Tensor) (urls : list string)
    (os : list (Outcome Response)) : list Event :=
  mjoin (zip_with (λ url o,
    HttpGet (image_request url) o ::
    match scoring_error emb o with
    | Some e => [StError ("Error processing image: " +:+ e)]
    | None => []
    end) urls os).

(** The log that [download_images_as_zip] leaves, from index [i] on. *)
Fixpoint zip_trace (i : Z) (urls : list string) (os : list (Outcome Response))
    : list Event :=
  match urls, os with
  | url :: urls, o :: os =>
      HttpGet (image_request url) o ::
      match o with
      | Raise e => [StError ("Error downloading image " +:+ pretty (i + 1) +:+ ": " +:+ e)]
      | Return _ => []
      end ++ zip_trace (i + 1) urls os
  | _, _ => []
  end.

(** The archive member that the answer at index [i] contributes. *)
Definition entry (i : Z) (o : Outcome Response) : option (string * bytes) :=
  (λ r, (member_name i, content r)) <$> ok200 o.

(** The members written for a list of answers, from index [i] on. *)
Fixpoint archive (i : Z) (os : list (Outcome Response)) : list (string * bytes) :=
  match os with
  | [] => []
  | o :: rest => option_list (entry i o) ++ archive (i + 1) rest
  end.

(** The bytes that a list of members occupies in the stream. *)
Definition stored (ms : list (string * bytes)) : nat :=
  foldr (λ m n, (member_size m.1 m.2 + n)%nat) 0%nat ms.

(** The URLs whose answers score above the threshold, in input order. *)
Definition kept (emb : Tensor) (urls : list string) (os : list (Outcome Response))
    : list string :=
  (filter (λ p, scores_above emb p.2) (zip urls os)).*1.

(** The URLs that [st.image] shows before the first one it raises on. *)
Fixpoint shown (image_urls : list string) : list string :=
  match image_urls with
  | [] => []
  | url :: rest =>
      match st_image url with
      | Return _ => url :: shown rest
      | Raise _ => []
      end
  end.

(** The exception of the first URL that [st.image] raises on, if any. *)
Fixpoint rejection (image_urls : list string) : option string :=
  match image_urls with
  | [] => None
  | url :: rest =>
      match st_image url with
      | Return _ => rejection rest
      | Raise e => Some e
      end
  end.

(** The thumbnails the preview loop shows, counting from index [i]. *)
Definition thumbnails (len_cols i : Z) (image_urls : list string) : list Event :=
  imap (λ k url, StImage ((i + Z.of_nat k) mod len_cols) url) image_urls.

(** What every run renders before it looks at the buttons. *)
Definition header : list PageEvent :=
  [SetPageConfig "Image Downloader" "📸" "wide";
   Markdown "<h1 style='text-align: center;'>📷 Image Downloader</h1>" true;
   SidebarTitle "🔍 Image Search Settings";
   SidebarTextInput "Enter search keyword:";
   SidebarNumberInput "Number of images:" 1 1000 10 10;
   SidebarSelectbox "Select Resolution:" ["640x480"; "1280x720"; "1920x1080"; "Original"];
   SidebarCheckbox "Use AI Filtering (Recommended)" true;
   SidebarButton "Fetch Images"].

(** What the "Fetch Images" button does in a run: the handler when it was
    clicked, nothing otherwise. *)
Definition fetch_step (inp : Widgets) : M unit :=
  if clicked inp "Fetch Images" then
    fetch_button_handler (typed inp) (number inp) (selected inp) (checked inp)
  else ret tt.

(** An error shown by [st.error]. *)
Definition is_report (ev : Event) : bool :=
  match ev with StError _ => true | _ => false end.

(** ** Properties *)

(** *** The two image loops *)

Lemma answers_length urls w : length (answers urls w) = length urls.
Proof.
  revert w. induction urls as [|url rest IH]; intros w; simpl; [done|].
  destruct (requests_get (image_request url) w) as [w' r]. simpl. by rewrite IH.
Qed.

(** One turn of the loop of [filter_images]. *)
Lemma filter_turn emb url acc s :
  try_except
    (bind (http_get (image_request url)) (λ response,
       bind (eval (image_similarity emb (content response))) (λ similarity,
         if float_gt similarity literal_0_2 then ret (acc ++ [url]) else ret acc)))
    (λ e, bind (emit (StError ("Error processing image: " +:+ e))) (λ _, ret acc)) s =
  let '(w, o) := requests_get (image_request url) (world s) in
  ({| world := w; events := events s ++ filter_trace emb [url] [o] |},
   Return (if scores_above emb o then acc ++ [url] else acc)).
Proof.
  unfold try_except, bind, http_get, eval, emit, ret, filter_trace, scores_above, score.
  destruct (requests_get (image_request url) (world s)) as [w [resp|e]]; simpl.
  - destruct (image_similarity emb (content resp)) as [x|e]; simpl.
    + by destruct (float_gt x literal_0_2).
    + by rewrite <- app_assoc.
  - by rewrite <- app_assoc.
Qed.

Lemma filter_loop_run emb urls acc s :
  filter_loop emb urls acc s =
    ({| world := world_after urls (world s);
        events := events s ++ filter_trace emb urls (answers urls (world s)) |},
     Return (acc ++ kept emb urls (answers urls (world s)))).
Proof.
  revert acc s. induction urls as [|url rest IH]; intros acc s.
  - destruct s. unfold filter_trace, kept. simpl. unfold ret. by rewrite !app_nil_r.
  - unfold kept. simpl. unfold bind at 1. rewrite filter_turn.
    destruct (requests_get (image_request url) (world s)) as [w o].
    rewrite IH. simpl. rewrite filter_cons. unfold filter_trace, kept. simpl.
    rewrite app_nil_r, <- !app_assoc.
    destruct (scores_above emb o); simpl; by rewrite <- ?app_assoc.
Qed.

(** One turn of the loop of [download_images_as_zip]. *)
Lemma zip_turn i url buf s :
  try_except
    (bind (http_get (image_request url)) (λ response,
       if status_code response =? 200 then
         ret (writestr buf (member_name i) (content response))
       else ret buf))
    (λ e, bind (emit (StError ("Error downloading image " +:+ pretty (i + 1)
                               +:+ ": " +:+ e))) (λ _, ret buf)) s =
  let '(w, o) := requests_get (image_request url) (world s) in
  ({| world := w; events := events s ++ zip_trace i [url] [o] |},
   Return (from_option (λ m, writestr buf m.1 m.2) buf (entry i o))).
Proof.
  unfold try_except, bind, http_get, emit, ret, entry, ok200.
  destruct (requests_get (image_request url) (world s)) as [w [resp|e]]; simpl.
  - by destruct (status_code resp =? 200).
  - by rewrite <- app_assoc.
Qed.

Lemma zip_trace_cons i url rest o os :
  zip_trace i (url :: rest) (o :: os) = zip_trace i [url] [o] ++ zip_trace (i + 1) rest os.
Proof. simpl. destruct o; simpl; by rewrite ?app_nil_r. Qed.

Lemma zip_loop_run i urls buf s :
  zip_loop i urls buf s =
    ({| world := world_after urls (world s);
        events := events s ++ zip_trace i urls (answers urls (world s)) |},
     Return {| members := members buf ++ archive i (answers urls (world s));
               closed := closed buf;
               pos := (pos buf + stored (archive i (answers urls (world s))))%nat |}).
Proof.
  revert i buf s. induction urls as [|url rest IH]; intros i buf s.
  - destruct s, buf. simpl. unfold ret. by rewrite !app_nil_r, Nat.add_0_r.
  - cbn [zip_loop answers world_after]. unfold bind at 1. rewrite zip_turn.
    destruct (requests_get (image_request url) (world s)) as [w o].
    rewrite IH. cbn [world events fst].
    rewrite (zip_trace_cons i url rest), <- app_assoc. cbn [archive].
    destruct (entry i o) as [[name data]|]; simpl; [|done].
    do 3 f_equal; [by rewrite <- app_assoc | lia].
Qed.

Lemma download_images_as_zip_run urls s :
  download_images_as_zip urls s =
    ({| world := world_after urls (world s);
        events := events s ++ zip_trace 0 urls (answers urls (world s)) |},
     Return {| members := archive 0 (answers urls (world s));
               closed := true;
               pos := 0 |}).
Proof.
  unfold download_images_as_zip, bind. rewrite zip_loop_run. reflexivity.
Qed.

(** *** The page loop *)

Lemma src_key_cases resolution :
  src_key resolution =
    if String.eqb resolution "640x480" then "small"
    else if String.eqb resolution "1280x720" then "medium"
    else if String.eqb resolution "1920x1080" then "large"
    else "original".
Proof.
  unfold src_key, rendition_table. simpl.
  destruct (String.eqb_spec resolution "640x480") as [->|H1]; [done|].
  destruct (String.eqb_spec resolution "1280x720") as [->|H2]; [done|].
  destruct (String.eqb_spec resolution "1920x1080") as [->|H3]; [done|].
  by rewrite !lookup_insert_ne, lookup_empty.
Qed.

Lemma photo_url_run resolution img s :
  photo_url resolution img s =
    (s, match rendition resolution img with
        | Some u => Return u
        | None => Raise (key_error resolution)
        end).
Proof.
  unfold photo_url, rendition, key_error. rewrite src_key_cases.
  destruct (String.eqb resolution "640x480");
    [|destruct (String.eqb resolution "1280x720");
      [|destruct (String.eqb resolution "1920x1080")]];
    unfold dict_item; by destruct (src img !! _).
Qed.

Lemma append_photos_run resolution imgs urls s :
  ∃ o, append_photos resolution imgs urls s = (s, o) ∧
    match o with
    | Return urls' => Some <$> urls' = (Some <$> urls) ++ (rendition resolution <$> imgs)
    | Raise e => e = key_error resolution ∧ ∃ img, img ∈ imgs ∧ rendition resolution img = None
    end.
Proof.
  revert urls. induction imgs as [|img rest IH]; intros urls; simpl.
  - eexists. split; [done|]. simpl. by rewrite app_nil_r.
  - unfold bind. rewrite photo_url_run.
    destruct (rendition resolution img) as [u|] eqn:Hu.
    + destruct (IH (urls ++ [u])) as (o & -> & Ho). exists o. split; [done|].
      destruct o as [urls'|e].
      * by rewrite Ho, fmap_app, <- app_assoc.
      * destruct Ho as (-> & img' & ? & ?). split; [done|]. exists img'.
        split; [by right|done].
    + eexists. split; [done|]. simpl. split; [done|]. exists img.
      split; [by left|done].
Qed.

Lemma fetch_pages_run query num_images resolution per_page pages urls s :
  ∃ w evs out,
    fetch_pages query num_images resolution per_page pages urls s =
      ({| world := w; events := events s ++ evs |}, out) ∧
    pages_run query num_images resolution per_page pages urls evs out.
Proof.
  revert urls s. induction pages as [|page rest IH]; intros urls s.
  - exists (world s), [], (Return (Finished urls)). split; [|constructor].
    destruct s. simpl. unfold ret. by rewrite app_nil_r.
  - simpl. unfold bind at 1, http_get. fold (page_request query num_images per_page page urls).
    destruct (requests_get _ (world s)) as [w [resp|e]].
    2:{ do 3 eexists. split; [done|]. constructor. }
    destruct (Z.eqb_spec (status_code resp) 200) as [H200|H200].
    2:{ unfold bind, emit, ret. simpl. do 3 eexists. rewrite <- app_assoc.
        split; [done|]. by constructor. }
    unfold bind at 1, eval. destruct (json resp) as [body|e] eqn:Hjson.
    2:{ do 3 eexists. split; [done|]. by constructor. }
    unfold bind at 1.
    destruct (append_photos_run resolution (default [] (photos body)) urls
                {| world := w; events := events s ++ [HttpGet (page_request query num_images per_page page urls) (Return resp)] |})
      as (o & -> & Ho).
    destruct o as [urls'|e].
    2:{ destruct Ho as (-> & img & ? & ?). do 3 eexists. split; [done|].
        by eapply run_key_error. }
    destruct (Z.geb_spec (len urls') num_images) as [Hlen|Hlen].
    + do 3 eexists. split; [done|]. eapply run_break; eauto.
    + destruct (IH urls' {| world := w; events := events s ++ [HttpGet (page_request query num_images per_page page urls) (Return resp)] |})
        as (w' & evs & out & -> & Hrun).
      simpl. do 3 eexists. rewrite <- app_assoc. split; [done|].
      eapply run_next; eauto.
Qed.

(** Locating an event in a log that is given element by element. *)
Lemma cons_split {A} (x y : A) l pre post :
  x :: l = pre ++ y :: post →
  (pre = [] ∧ x = y ∧ l = post) ∨ ∃ pre', pre = x :: pre' ∧ l = pre' ++ y :: post.
Proof. destruct pre; intros; simplify_eq/=; eauto. Qed.

Lemma nil_split {A} (y : A) pre post : [] = pre ++ y :: post → False.
Proof. by destruct pre. Qed.

Ltac split_log :=
  repeat match goal with
    | H : [] = _ ++ _ :: _ |- _ => by destruct (nil_split _ _ _ H)
    | H : _ :: _ = _ ++ _ :: _ |- _ =>
        apply cons_split in H as [(-> & ? & ?)|(? & -> & H)]; simplify_eq
    end.

Lemma pages_run_refused query num_images resolution per_page pages urls evs out :
  pages_run query num_images resolution per_page pages urls evs out →
  ∀ pre rq resp post,
    evs = pre ++ HttpGet rq (Return resp) :: post →
    status_code resp ≠ 200 →
    out = Return (Returned []) ∧
    post = [StError ("Failed to fetch images: " +:+ pretty (status_code resp))].
Proof.
  induction 1; intros pre rq0 resp0 post Hlog Hne; split_log; eauto.
Qed.

Lemma received_cons ev evs : received (ev :: evs) = delivered ev ++ received evs.
Proof. done. Qed.

Lemma fmap_Some_length (l : list string) (k : list (option string)) :
  Some <$> l = k → length l = length k.
Proof. intros <-. by rewrite length_fmap. Qed.

Lemma pages_run_requests query num_images resolution per_page pages urls evs out :
  pages_run query num_images resolution per_page pages urls evs out →
  len urls < num_images →
  ∀ pre rq r post,
    evs = pre ++ HttpGet rq r :: post →
    ∃ page, pages !! requests pre = Some page ∧
      rq = {| req_url := PEXELS_URL;
              req_authorization := Some PEXELS_API_KEY;
              req_params := Some
                {| param_query := query;
                   param_per_page :=
                     Z.min per_page (num_images - (len urls + len (received pre)));
                   param_page := page |};
              req_stream := false |} ∧
      len urls + len (received pre) < num_images.
Proof.
  assert (Hfirst : ∀ page rest urls,
    len urls < num_images →
    ∃ page0, (page :: rest) !! requests [] = Some page0 ∧
      page_request query num_images per_page page urls =
        {| req_url := PEXELS_URL;
           req_authorization := Some PEXELS_API_KEY;
           req_params := Some
             {| param_query := query;
                param_per_page :=
                  Z.min per_page (num_images - (len urls + len (received [])));
                param_page := page0 |};
           req_stream := false |} ∧
      len urls + len (received []) < num_images).
  { intros page rest urls0 ?. exists page. unfold page_request, len in *. simpl.
    rewrite Z.add_0_r. split_and!; [done|done|lia]. }
  induction 1 as [| | | | | |page rest urls resp body urls' evs out
                               Hcode Hjson Hurls Hlen Hrest IH];
    intros Hlt pre rq0 r0 post Hlog; try (split_log; by eauto).
  apply cons_split in Hlog as [(-> & ? & ?)|(pre' & -> & Hlog)];
    simplify_eq; [by eauto|].
  destruct (IH Hlen _ _ _ _ eq_refl) as (page0 & Hpage & -> & Hlt').
  apply fmap_Some_length in Hurls. rewrite length_app, !length_fmap in Hurls.
  assert (Hd : delivered (HttpGet (page_request query num_images per_page page urls)
                            (Return resp)) = default [] (photos body)).
  { simpl. by rewrite Hcode, Z.eqb_refl, Hjson. }
  exists page0. unfold requests. rewrite received_cons, Hd. simpl.
  unfold len in *. rewrite length_app.
  replace (Z.of_nat (length urls) +
           Z.of_nat (length (default [] (photos body)) + length (received pre')))
    with (Z.of_nat (length urls') + Z.of_nat (length (received pre'))) by lia.
  done.
Qed.

Lemma pages_run_collects query num_images resolution per_page pages urls evs exit :
  pages_run query num_images resolution per_page pages urls evs (Return exit) →
  match exit with
  | Finished urls' =>
      existsb refused evs = false ∧
      Some <$> urls' = (Some <$> urls) ++ (rendition resolution <$> received evs)
  | Returned v => existsb refused evs = true ∧ v = []
  end.
Proof.
  intros Hrun. remember (Return exit) as out eqn:Hout.
  induction Hrun as [| | | | | |page rest urls resp body urls' evs out
                                  Hcode Hjson Hurls Hlen Hrest IH]; simplify_eq.
  - simpl. by rewrite app_nil_r.
  - simpl. split; [|done]. apply orb_true_iff. left. by apply negb_true_iff, Z.eqb_neq.
  - unfold received. simpl. rewrite Hcode, Z.eqb_refl, Hjson, app_nil_r. by split.
  - specialize (IH eq_refl). rewrite received_cons. simpl.
    rewrite Hcode, Z.eqb_refl, Hjson. simpl.
    destruct exit as [v|urls'']; [done|].
    destruct IH as [? ->]. split; [done|].
    by rewrite Hurls, fmap_app, app_assoc.
Qed.

Lemma py_range_lookup a b (k : nat) page :
  py_range a b !! k = Some page → page = a + Z.of_nat k ∧ Z.of_nat k < b - a.
Proof.
  unfold py_range. rewrite list_lookup_fmap.
  destruct (seq 0 (Z.to_nat (b - a)) !! k) as [i|] eqn:Hi; [|done].
  apply lookup_seq in Hi as [-> ?]. intros [= <-]. split; [done|lia].
Qed.

Lemma py_slice_to_length {A} (l : list A) n : 0 ≤ n → len (py_slice_to l n) ≤ n.
Proof.
  intros Hn. unfold py_slice_to, len. destruct (Z.leb_spec 0 n); [|lia].
  rewrite length_take. lia.
Qed.

Lemma py_slice_to_fmap {A B} (f : A → B) (l : list A) n :
  f <$> py_slice_to l n = py_slice_to (f <$> l) n.
Proof.
  unfold py_slice_to. rewrite length_fmap. destruct (0 <=? n); by rewrite fmap_take.
Qed.

(** [fetch_image_urls] in terms of a run of its page loop. *)
Lemma fetch_image_urls_run query num_images resolution s :
  ∃ w evs exit,
    pages_run query num_images resolution 80
      (py_range 1 (num_images / 80 + 1 + 1)) [] evs exit ∧
    fetch_image_urls query num_images resolution s =
      ({| world := w; events := events s ++ evs |},
       match exit with
       | Return (Returned v) => Return v
       | Return (Finished image_urls) => Return (py_slice_to image_urls num_images)
       | Raise e => Raise e
       end).
Proof.
  destruct (fetch_pages_run query num_images resolution 80
              (py_range 1 (num_images / 80 + 1 + 1)) [] s) as (w & evs & exit & Hrun & ?).
  exists w, evs, exit. split; [done|].
  unfold fetch_image_urls, bind. rewrite Hrun. by destruct exit as [[v|urls]|e].
Qed.

Lemma requests_cons_get rq o evs : requests (HttpGet rq o :: evs) = S (requests evs).
Proof. done. Qed.

Lemma pages_run_request_count query num_images resolution per_page pages urls evs out :
  pages_run query num_images resolution per_page pages urls evs out →
  (requests evs ≤ length pages)%nat ∧ (pages ≠ [] → (1 ≤ requests evs)%nat).
Proof.
  induction 1 as [| | | | | |page rest urls resp body urls' evs out
                   Hcode Hjson Hurls Hlen Hrest IH]; simpl;
    try (split; [unfold requests; simpl; lia|intros _; unfold requests; simpl; lia]).
  - split; [unfold requests; simpl; lia|done].
  - rewrite requests_cons_get. split; [lia|intros _; lia].
Qed.

Lemma pages_run_exhausts query num_images resolution per_page pages urls evs urls' :
  pages_run query num_images resolution per_page pages urls evs (Return (Finished urls')) →
  len urls' < num_images → requests evs = length pages.
Proof.
  intros Hrun. remember (Return (Finished urls')) as out eqn:Hout.
  induction Hrun as [| | | | | |page rest urls resp body urls'' evs out
                      Hcode Hjson Hurls Hlen Hrest IH]; simplify_eq; intros Hshort.
  - done.
  - lia.
  - rewrite requests_cons_get. simpl. f_equal. by apply IH.
Qed.

Lemma py_range_length a b : length (py_range a b) = Z.to_nat (b - a).
Proof. unfold py_range. by rewrite length_fmap, length_seq. Qed.

(** ** The claims about [fetch_image_urls] *)

(** C3. If a page request of [fetch_image_urls] is answered with a status
    other than 200, the function reports "Failed to fetch images: <status>"
    as the last thing it does and returns the empty list, whatever earlier
    pages delivered. *)
Theorem fetch_image_urls_refused query num_images resolution s s' out pre rq resp post :
  fetch_image_urls query num_images resolution s = (s', out) →
  events s' = events s ++ pre ++ HttpGet rq (Return resp) :: post →
  status_code resp ≠ 200 →
  out = Return [] ∧
  post = [StError ("Failed to fetch images: " +:+ pretty (status_code resp))].
Proof.
  intros Hfetch Hlog Hcode.
  destruct (fetch_image_urls_run query num_images resolution s)
    as (w & evs & exit & Hrun & Heq).
  rewrite Heq in Hfetch. injection Hfetch as <- <-. simpl in Hlog.
  apply app_inv_head in Hlog.
  destruct (pages_run_refused _ _ _ _ _ _ _ _ Hrun _ _ _ _ Hlog Hcode) as [-> ->].
  done.
Qed.

(** C4. For [num_images >= 1], every page request of [fetch_image_urls]
    carries the query, asks for [min(80, num_images - collected)] results
    where [collected] counts the photos received before it, and has the
    next page number; it is only sent while fewer than [num_images] photos
    have been collected and its page number is at most
    [num_images // 80 + 1]; a returned list has at most [num_images]
    URLs.  The pages are really requested: the first one always is, and
    when the function returns without a refused request it has either
    collected [num_images] photos or requested all [num_images // 80 + 1]
    pages. *)
Theorem fetch_image_urls_pagination query num_images resolution s s' out :
  1 ≤ num_images →
  fetch_image_urls query num_images resolution s = (s', out) →
  (∀ pre rq r post,
     events s' = events s ++ pre ++ HttpGet rq r :: post →
     req_params rq = Some
       {| param_query := query;
          param_per_page := Z.min 80 (num_images - len (received pre));
          param_page := Z.of_nat (requests pre) + 1 |} ∧
     len (received pre) < num_images ∧
     Z.of_nat (requests pre) + 1 ≤ num_images / 80 + 1) ∧
  (∀ urls, out = Return urls → len urls ≤ num_images) ∧
  (∀ evs,
     events s' = events s ++ evs →
     (1 ≤ requests evs)%nat ∧
     (∀ urls, out = Return urls → existsb refused evs = false →
        num_images ≤ len (received evs) ∨
        Z.of_nat (requests evs) = num_images / 80 + 1)).
Proof.
  intros Hnum Hfetch.
  destruct (fetch_image_urls_run query num_images resolution s)
    as (w & evs & exit & Hrun & Heq).
  rewrite Heq in Hfetch. injection Hfetch as <- <-. simpl. split_and!.
  - intros pre rq r post Hlog. apply app_inv_head in Hlog.
    assert (Hzero : len (@nil string) < num_images) by (unfold len; simpl; lia).
    destruct (pages_run_requests _ _ _ _ _ _ _ _ Hrun Hzero _ _ _ _ Hlog)
      as (page & Hpage & -> & Hlt).
    apply py_range_lookup in Hpage as [-> Hbound].
    unfold len in *. simpl in *. split_and!; [do 2 f_equal; lia|lia|lia].
  - intros urls Hout. destruct exit as [[v|image_urls]|e]; simplify_eq.
    + apply pages_run_collects in Hrun as [_ ->]. unfold len. simpl. lia.
    + apply py_slice_to_length. lia.
  - intros evs' Hlog. apply app_inv_head in Hlog as <-.
    assert (Hdiv : 0 ≤ num_images / 80) by (apply Z.div_pos; lia).
    pose proof (pages_run_request_count _ _ _ _ _ _ _ _ Hrun) as [_ Hge].
    split.
    + apply Hge. intros Hnil. apply (f_equal length) in Hnil.
      rewrite py_range_length in Hnil. simpl in Hnil. lia.
    + intros urls Hout Hok. destruct exit as [[v|image_urls]|e]; simplify_eq.
      * apply pages_run_collects in Hrun as [Hrefused _]. congruence.
      * pose proof (pages_run_collects _ _ _ _ _ _ _ _ Hrun) as [_ Hurls].
        apply fmap_Some_length in Hurls. simpl in Hurls. rewrite length_fmap in Hurls.
        destruct (Z.le_gt_cases num_images (len (received evs))) as [?|Hshort];
          [by left|right].
        rewrite (pages_run_exhausts _ _ _ _ _ _ _ _ Hrun), py_range_length; [lia|].
        unfold len in *. rewrite Hurls. lia.
Qed.

(** C8. The URL kept for a photo is the entry of its ["src"] dictionary
    that the resolution stands for: "640x480" is "small", "1280x720" is
    "medium", "1920x1080" is "large" and every other string is "original".
    A list returned by [fetch_image_urls] is empty after a refused request
    and otherwise consists of these entries of the received photos, in
    order, cut to [num_images]. *)
Theorem fetch_image_urls_selects_rendition query num_images resolution s s' out :
  fetch_image_urls query num_images resolution s = (s', Return out) →
  (src_key "640x480" = "small" ∧ src_key "1280x720" = "medium" ∧
   src_key "1920x1080" = "large" ∧
   (resolution ∉ ["640x480"; "1280x720"; "1920x1080"] → src_key resolution = "original")) ∧
  (∀ img st, photo_url resolution img st =
     (st, match src img !! src_key resolution with
          | Some u => Return u
          | None => Raise ("'" +:+ src_key resolution +:+ "'")
          end)) ∧
  ∃ evs, events s' = events s ++ evs ∧
    if existsb refused evs then out = []
    else Some <$> out =
           py_slice_to ((λ img, src img !! src_key resolution) <$> received evs) num_images.
Proof.
  intros Hfetch. split_and!; try done.
  - intros Hnot. rewrite src_key_cases.
    destruct (String.eqb_spec resolution "640x480") as [->|?];
      [destruct Hnot; by left|].
    destruct (String.eqb_spec resolution "1280x720") as [->|?];
      [destruct Hnot; by right; left|].
    destruct (String.eqb_spec resolution "1920x1080") as [->|?];
      [destruct Hnot; by right; right; left|done].
  - intros img st. apply photo_url_run.
  - destruct (fetch_image_urls_run query num_images resolution s)
      as (w & evs & exit & Hrun & Heq).
    rewrite Heq in Hfetch. exists evs.
    destruct exit as [exit|e]; [|done]. apply pages_run_collects in Hrun.
    destruct exit as [v|image_urls]; destruct Hrun as [-> Hrun];
      simplify_eq/=; split; try done.
    by rewrite py_slice_to_fmap, Hrun.
Qed.

(** ** The claims about [filter_images] *)

Lemma float_gt_exceeds x c : float_gt x c = true ↔ exceeds c x.
Proof.
  destruct x as [q| | |]; simpl; [|done|split; [done|tauto]..].
  rewrite Qlt_alt. by destruct (c ?= q)%Q.
Qed.

Lemma kept_sublist emb urls os : kept emb urls os `sublist_of` urls.
Proof.
  unfold kept. revert os. induction urls as [|url rest IH]; intros [|o os]; simpl;
    try apply sublist_nil_l.
  rewrite filter_cons. destruct (decide _); simpl.
  - by apply sublist_skip.
  - by apply sublist_cons.
Qed.

Lemma sublist_full {A} (l k : list A) :
  l `sublist_of` k → (length k ≤ length l)%nat → l = k.
Proof.
  induction 1 as [|x l k Hsub IH|x l k Hsub IH]; simpl; intros Hlen; [done|..].
  - f_equal. apply IH. lia.
  - apply sublist_length in Hsub. lia.
Qed.

Lemma filter_images_run urls query emb s :
  encode_text query = Return emb →
  filter_images urls query s =
    ({| world := world_after urls (world s);
        events := events s ++ filter_trace emb urls (answers urls (world s)) |},
     Return (kept emb urls (answers urls (world s)))).
Proof.
  intros Hemb. unfold filter_images, bind, eval. rewrite Hemb.
  apply filter_loop_run.
Qed.

(** C1 (amended). [filter_images] filters, it does not re-rank: for a
    query the model can encode it returns a sublist of its input, in input
    order; the result is a permutation of the input only when it is the
    input itself. *)
Theorem filter_images_sublist urls query emb s :
  encode_text query = Return emb →
  ∃ s' out,
    filter_images urls query s = (s', Return out) ∧
    out `sublist_of` urls ∧
    (out ≡ₚ urls → out = urls).
Proof.
  intros Hemb. do 2 eexists. split; [by apply filter_images_run|].
  split; [apply kept_sublist|].
  intros Hperm. apply sublist_full; [apply kept_sublist|].
  by rewrite (Permutation_length Hperm).
Qed.

(** C2. For a query the model can encode, [filter_images] returns exactly
    the input URLs whose image the model scores strictly above 0.2, in
    input order; the result is a sublist of the input. *)
Theorem filter_images_keeps_scores_above urls query emb s :
  encode_text query = Return emb →
  ∃ s',
    filter_images urls query s =
      (s', Return (filter (λ p, scores_above emb p.2)
                     (zip urls (answers urls (world s)))).*1) ∧
    (filter (λ p, scores_above emb p.2) (zip urls (answers urls (world s)))).*1
      `sublist_of` urls ∧
    (∀ o, scores_above emb o = true ↔ ∃ x, score emb o = Some x ∧ exceeds literal_0_2 x).
Proof.
  intros Hemb. eexists. split; [by apply filter_images_run|].
  split; [apply kept_sublist|].
  intros o. unfold scores_above. destruct (score emb o) as [x|].
  - rewrite float_gt_exceeds. split; [eauto|]. by intros (? & [= <-] & ?).
  - split; [done|]. by intros (? & ? & ?).
Qed.

(** ** The claims about [download_images_as_zip] *)

Lemma string_length_app (s t : string) :
  String.length (s +:+ t) = (String.length s + String.length t)%nat.
Proof. induction s as [|a s IH]; simpl; [done|]. by rewrite IH. Qed.

Lemma string_app_inj_r (s1 s2 t : string) : s1 +:+ t = s2 +:+ t → s1 = s2.
Proof.
  revert s2. induction s1 as [|a s1 IH]; intros [|b s2] Heq.
  - done.
  - apply (f_equal String.length) in Heq.
    rewrite !string_length_app in Heq. simpl in Heq. lia.
  - apply (f_equal String.length) in Heq.
    rewrite !string_length_app in Heq. simpl in Heq. lia.
  - injection Heq as -> Heq. f_equal. by apply IH.
Qed.

Lemma member_name_inj i j : member_name i = member_name j → i = j.
Proof.
  unfold member_name. intros Heq. apply (inj (String.app "image_")) in Heq.
  apply string_app_inj_r, (inj pretty) in Heq. lia.
Qed.

Lemma elem_of_archive i os name data :
  (name, data) ∈ archive i os ↔
  ∃ (k : nat) r, os !! k = Some (Return r) ∧ status_code r = 200 ∧
    name = member_name (i + Z.of_nat k) ∧ data = content r.
Proof.
  revert i. induction os as [|o os IH]; intros i; simpl.
  - split; [by intros ?%elem_of_nil|]. by intros (k & r & ? & _).
  - rewrite elem_of_app, IH. unfold entry, ok200. split.
    + intros [Hhere|(k & r & Hk & H200 & -> & ->)].
      * destruct o as [r|e]; [|by apply elem_of_nil in Hhere].
        destruct (Z.eqb_spec (status_code r) 200); [|by apply elem_of_nil in Hhere].
        apply list_elem_of_singleton in Hhere as [= -> ->].
        exists 0%nat, r. by rewrite Z.add_0_r.
      * exists (S k), r. split_and!; try done. f_equal. lia.
    + intros ([|k] & r & Hk & H200 & -> & ->); simpl in Hk.
      * left. injection Hk as ->. rewrite H200. simpl. rewrite Z.add_0_r.
        apply list_elem_of_singleton. done.
      * right. exists k, r. split_and!; try done. f_equal. lia.
Qed.

Lemma archive_names_NoDup i os : NoDup (archive i os).*1.
Proof.
  revert i. induction os as [|o os IH]; intros i; simpl; [constructor|].
  rewrite fmap_app. apply NoDup_app. split_and!; [|intros name Hname|apply IH].
  - destruct (entry i o) as [m|]; simpl; [apply NoDup_singleton|constructor].
  - intros ([name' data] & -> & Hin)%list_elem_of_fmap.
    apply elem_of_archive in Hin as (k & r & _ & _ & Hn & _). simpl in *.
    destruct (entry i o) as [m|] eqn:Hentry; simpl in Hname.
    2:{ by apply elem_of_nil in Hname. }
    apply list_elem_of_singleton in Hname. unfold entry in Hentry.
    destruct (ok200 o) as [r'|]; [|done]. injection Hentry as <-. simpl in Hname.
    rewrite Hname in Hn. apply member_name_inj in Hn. lia.
Qed.

(** C5. [download_images_as_zip] returns an archive whose members are
    exactly the pairs ([image_{i+1}.jpg], body) for the indices [i] whose
    request was answered with status 200; member names are not repeated,
    and an index that failed or had another status leaves its number
    unused. *)
Theorem download_images_as_zip_members urls s :
  ∃ s' zip_buffer,
    download_images_as_zip urls s = (s', Return zip_buffer) ∧
    (∀ name data,
       (name, data) ∈ members zip_buffer ↔
       ∃ (i : nat) r,
         answers urls (world s) !! i = Some (Return r) ∧ status_code r = 200 ∧
         name = "image_" +:+ pretty (Z.of_nat i + 1) +:+ ".jpg" ∧
         data = content r) ∧
    NoDup (members zip_buffer).*1.
Proof.
  do 2 eexists. split; [apply download_images_as_zip_run|]. simpl. split.
  - intros name data. rewrite elem_of_archive. done.
  - apply archive_names_NoDup.
Qed.

Lemma archive_none i os : (∀ o, o ∈ os → ok200 o = None) → archive i os = [].
Proof.
  revert i. induction os as [|o os IH]; intros i Hnone; simpl; [done|].
  unfold entry. rewrite (Hnone o), IH; [done| |by left].
  intros o' ?. apply Hnone. by right.
Qed.

(** C10. [download_images_as_zip] always returns: its result is a closed
    archive in a buffer at offset 0, and when no request is answered with
    status 200 the archive has no members. *)
Theorem download_images_as_zip_total urls s :
  ∃ s' zip_buffer,
    download_images_as_zip urls s = (s', Return zip_buffer) ∧
    pos zip_buffer = 0%nat ∧
    closed zip_buffer = true ∧
    ((∀ o, o ∈ answers urls (world s) → ok200 o = None) → members zip_buffer = []).
Proof.
  do 2 eexists. split; [apply download_images_as_zip_run|]. simpl.
  split_and!; try done. apply archive_none.
Qed.

(** C6. In the loops of [filter_images] and [download_images_as_zip] an
    exception raised for one URL is reported and only that URL is skipped:
    every URL is requested in turn, the log holds the request of each URL
    followed by a report when it raised, the result is a value and not an
    exception, and it is the result built from the URLs that did not
    raise. *)
Theorem loops_report_and_continue urls query emb s :
  encode_text query = Return emb →
  (∃ s' out,
     filter_images urls query s = (s', Return out) ∧
     events s' = events s ++ filter_trace emb urls (answers urls (world s)) ∧
     out = kept emb urls (answers urls (world s))) ∧
  (∃ s' zip_buffer,
     download_images_as_zip urls s = (s', Return zip_buffer) ∧
     events s' = events s ++ zip_trace 0 urls (answers urls (world s)) ∧
     members zip_buffer = archive 0 (answers urls (world s))).
Proof.
  intros Hemb. split.
  - do 2 eexists. split; [by apply filter_images_run|]. done.
  - do 2 eexists. split; [apply download_images_as_zip_run|]. done.
Qed.

(** ** The claims about the button handler *)

Lemma show_loop_run len_cols i image_urls s :
  show_loop len_cols i image_urls s =
    ({| world := world s;
        events := events s ++ thumbnails len_cols i (shown image_urls) |},
     match rejection image_urls with
     | None => Return tt
     | Some e => Raise e
     end).
Proof.
  revert i s. induction image_urls as [|url rest IH]; intros i s.
  - destruct s. simpl. unfold ret. by rewrite app_nil_r.
  - simpl. unfold bind at 1, show_image, bind, eval.
    destruct (st_image url) as [[]|e].
    + unfold emit. rewrite IH. simpl.
      unfold thumbnails. rewrite imap_cons, <- app_assoc, Z.add_0_r. simpl.
      do 4 f_equal. apply imap_ext. intros k url' _. simpl. do 2 f_equal. lia.
    + destruct s. simpl. by rewrite app_nil_r.
Qed.

Lemma shown_all image_urls :
  Forall (λ url, st_image url = Return tt) image_urls →
  shown image_urls = image_urls ∧ rejection image_urls = None.
Proof.
  induction 1 as [|url rest Hurl _ [IH1 IH2]]; simpl; [done|].
  by rewrite Hurl, IH1, IH2.
Qed.

(** C9. With an empty keyword the handler only reports "Please enter a
    keyword.": the world is untouched (no request was sent) and nothing
    else is logged (no fetch, no filtering, no archive). *)
Theorem empty_keyword_skips_pipeline num_images resolution ai_filter s :
  fetch_button_handler "" num_images resolution ai_filter s =
    ({| world := world s;
        events := events s ++ [StSidebarError "Please enter a keyword."] |},
     Return tt).
Proof. reflexivity. Qed.

(** C7. When the fetch block yields a non-empty list of [n] URLs, URLs
    being what [st.image] shows without raising, the handler announces
    them, creates [min(5, n)] columns, shows the first [min(20, n)] URLs as
    thumbnails, the one of index [k] in column [k % min(5, n)], writes the
    count, and offers the archive that [download_images_as_zip] builds from
    all [n] URLs. *)
Theorem preview_and_archive query num_images resolution ai_filter s s1 image_urls :
  query ≠ "" →
  fetch_block query num_images resolution ai_filter s = (s1, Return image_urls) →
  image_urls ≠ [] →
  Forall (λ url, st_image url = Return tt) (take 20 image_urls) →
  ∃ s2 s3 zip_buffer,
    world s2 = world s1 ∧
    events s2 = events s1 ++
      [StSuccess ("Fetched " +:+ pretty (len image_urls) +:+ " images successfully! 🎉");
       StColumns (Z.min 5 (len image_urls))] ++
      imap (λ k url, StImage (Z.of_nat k mod Z.min 5 (len image_urls)) url)
        (take 20 image_urls) ++
      [StWrite ("Showing " +:+ pretty (Z.min (len image_urls) 20) +:+ " out of "
                +:+ pretty (len image_urls) +:+ " images.")] ∧
    length (take 20 image_urls) = Nat.min 20 (length image_urls) ∧
    download_images_as_zip image_urls s2 = (s3, Return zip_buffer) ∧
    fetch_button_handler query num_images resolution ai_filter s =
      ({| world := world s3;
          events := events s3 ++
            [StDownloadButton "📥 Download All Images as ZIP" zip_buffer
               (query +:+ "_images.zip") "application/zip"] |},
       Return tt).
Proof.
  intros Hquery Hfetch Hne Hshown.
  eexists {| world := world s1; events := _ |}, _, _.
  split; [done|]. split; [simpl; reflexivity|].
  split; [apply length_take|].
  split; [apply download_images_as_zip_run|].
  unfold fetch_button_handler.
  destruct (String.eqb_spec query "") as [?|_]; [done|].
  unfold bind at 1. rewrite Hfetch.
  destruct image_urls as [|url rest] eqn:Hurls; [done|]. rewrite <- Hurls in *.
  assert (Hpos : (Z.min 5 (len image_urls) <=? 0) = false).
  { apply Z.leb_gt. rewrite Hurls. unfold len. simpl. lia. }
  apply shown_all in Hshown as [Hall Hnone].
  unfold show_block, bind, emit, st_columns. rewrite Hpos.
  unfold bind, emit, ret. rewrite show_loop_run.
  unfold py_slice_to, MAX_DISPLAY. simpl.
  change (Z.to_nat 20) with 20%nat. rewrite Hall, Hnone. simpl.
  rewrite download_images_as_zip_run. simpl.
  unfold thumbnails. simpl.
  do 2 f_equal. rewrite <- !app_assoc. simpl. by rewrite <- !app_assoc.
Qed.

(** ** Further properties of [fetch_image_urls] *)

Lemma pages_run_raises query num_images resolution per_page pages urls evs out :
  pages_run query num_images resolution per_page pages urls evs out →
  ∀ pre rq o post e,
    evs = pre ++ HttpGet rq o :: post →
    (o = Raise e ∨
     ∃ resp, o = Return resp ∧ status_code resp = 200 ∧ json resp = Raise e) →
    out = Raise e ∧ post = [].
Proof.
  induction 1; intros pre rq0 o post e0 Hlog Hbad; split_log; eauto;
    destruct Hbad as [?|(resp0 & ? & ? & ?)]; simplify_eq;
    first [done | split; congruence | congruence].
Qed.

Lemma fmap_Some_app_None {A} (f : A → option string) (l k1 : list string) (k2 : list A) x :
  Some <$> l = (Some <$> k1) ++ (f <$> k2) → x ∈ k2 → f x = None → False.
Proof.
  intros Heq Hin Hnone.
  assert (Hmem : None ∈ Some <$> l).
  { rewrite Heq. apply elem_of_app. right. rewrite <- Hnone.
    by apply list_elem_of_fmap_2. }
  apply list_elem_of_fmap in Hmem as (? & ? & _). done.
Qed.

Lemma pages_run_missing_key query num_images resolution per_page pages urls evs out :
  pages_run query num_images resolution per_page pages urls evs out →
  ∀ img, img ∈ received evs → rendition resolution img = None →
    out = Raise (key_error resolution).
Proof.
  induction 1 as [| |page rest urls resp Hcode| | | |page rest urls resp body urls' evs out
                   Hcode Hjson Hurls Hlen Hrest IH]; intros img0 Hin Hnone.
  - by apply elem_of_nil in Hin.
  - by apply elem_of_nil in Hin.
  - unfold received in Hin. simpl in Hin.
    apply Z.eqb_neq in Hcode. rewrite Hcode in Hin. by apply elem_of_nil in Hin.
  - unfold received in Hin. simpl in Hin.
    rewrite Hcode, Z.eqb_refl, Hjson in Hin. by apply elem_of_nil in Hin.
  - done.
  - unfold received in Hin. simpl in Hin.
    rewrite Hcode, Z.eqb_refl, Hjson, app_nil_r in Hin.
    destruct (fmap_Some_app_None _ _ _ _ _ Hurls Hin Hnone).
  - rewrite received_cons in Hin. simpl in Hin.
    rewrite Hcode, Z.eqb_refl, Hjson in Hin.
    apply elem_of_app in Hin as [Hin|Hin]; [|by eauto].
    destruct (fmap_Some_app_None _ _ _ _ _ Hurls Hin Hnone).
Qed.

Lemma py_range_nil a b : b ≤ a → py_range a b = [].
Proof.
  intros Hle. apply length_zero_iff_nil. rewrite py_range_length. lia.
Qed.

Lemma py_slice_to_len {A} (l : list A) n : 0 ≤ n → len (py_slice_to l n) = Z.min n (len l).
Proof.
  intros Hn. unfold py_slice_to, len. destruct (Z.leb_spec 0 n); [|lia].
  rewrite length_take. lia.
Qed.

(** X1. The page requests are not guarded: when a request raises, or a 200
    answer cannot be decoded as JSON, [fetch_image_urls] raises that very
    exception at once; nothing is requested or reported after it. *)
Theorem fetch_image_urls_propagates query num_images resolution s s' out pre rq o post e :
  fetch_image_urls query num_images resolution s = (s', out) →
  events s' = events s ++ pre ++ HttpGet rq o :: post →
  (o = Raise e ∨
   ∃ resp, o = Return resp ∧ status_code resp = 200 ∧ json resp = Raise e) →
  out = Raise e ∧ post = [].
Proof.
  intros Hfetch Hlog Hbad.
  destruct (fetch_image_urls_run query num_images resolution s)
    as (w & evs & exit & Hrun & Heq).
  rewrite Heq in Hfetch. injection Hfetch as <- <-. simpl in Hlog.
  apply app_inv_head in Hlog.
  destruct (pages_run_raises _ _ _ _ _ _ _ _ Hrun _ _ _ _ _ Hlog Hbad) as [-> ->].
  done.
Qed.

(** X2. A received photo without the rendition the resolution stands for
    makes [fetch_image_urls] raise the [KeyError] of that key: no list is
    returned, not even the URLs of earlier photos. *)
Theorem fetch_image_urls_missing_key query num_images resolution s s' out evs img :
  fetch_image_urls query num_images resolution s = (s', out) →
  events s' = events s ++ evs →
  img ∈ received evs →
  src img !! src_key resolution = None →
  out = Raise ("'" +:+ src_key resolution +:+ "'").
Proof.
  intros Hfetch Hlog Hin Hnone.
  destruct (fetch_image_urls_run query num_images resolution s)
    as (w & evs' & exit & Hrun & Heq).
  rewrite Heq in Hfetch. injection Hfetch as <- <-. simpl in Hlog.
  apply app_inv_head in Hlog as <-.
  by rewrite (pages_run_missing_key _ _ _ _ _ _ _ _ Hrun img Hin Hnone).
Qed.

(** X3. When [fetch_image_urls] returns without a refused request, for
    [num_images >= 0], the list has [min(num_images, received)] URLs; and
    when fewer than [num_images] photos were received, all
    [num_images // 80 + 1] pages have been requested. *)
Theorem fetch_image_urls_length query num_images resolution s s' out evs :
  0 ≤ num_images →
  fetch_image_urls query num_images resolution s = (s', Return out) →
  events s' = events s ++ evs →
  existsb refused evs = false →
  len out = Z.min num_images (len (received evs)) ∧
  (len (received evs) < num_images →
   Z.of_nat (requests evs) = num_images / 80 + 1).
Proof.
  intros Hnum Hfetch Hlog Hok.
  destruct (fetch_image_urls_run query num_images resolution s)
    as (w & evs' & exit & Hrun & Heq).
  rewrite Heq in Hfetch. injection Hfetch as <- Hout. simpl in Hlog.
  apply app_inv_head in Hlog as <-.
  destruct exit as [[v|image_urls]|e]; simplify_eq.
  - apply pages_run_collects in Hrun as [Hrefused _]. congruence.
  - pose proof (pages_run_collects _ _ _ _ _ _ _ _ Hrun) as [_ Hurls].
    apply fmap_Some_length in Hurls. simpl in Hurls. rewrite length_fmap in Hurls.
    rewrite py_slice_to_len by done. unfold len. rewrite Hurls. split; [done|].
    intros Hshort.
    rewrite (pages_run_exhausts _ _ _ _ _ _ _ _ Hrun), py_range_length.
    + assert (0 ≤ num_images / 80) by (apply Z.div_pos; lia). lia.
    + unfold len. rewrite Hurls. done.
Qed.

(** X4. Outside the range of the widget: for a negative [num_images]
    [fetch_image_urls] sends no request and returns the empty list, and for
    [num_images = 0] whatever list it returns is empty. *)
Theorem fetch_image_urls_nonpositive query num_images resolution s :
  num_images ≤ 0 →
  (num_images < 0 → fetch_image_urls query num_images resolution s = (s, Return [])) ∧
  (∀ s' out, fetch_image_urls query num_images resolution s = (s', Return out) → out = []).
Proof.
  intros Hnum.
  assert (Hnone : num_images < 0 →
                  fetch_image_urls query num_images resolution s = (s, Return [])).
  { intros Hneg. unfold fetch_image_urls.
    rewrite py_range_nil.
    - unfold bind, ret, py_slice_to. simpl.
      destruct (0 <=? num_images); by rewrite ?take_nil.
    - assert (num_images / 80 < 0) by (apply Z.div_lt_upper_bound; lia). lia. }
  split; [done|].
  intros s' out Hfetch.
  destruct (Z.lt_ge_cases num_images 0) as [Hneg|Hzero].
  - rewrite (Hnone Hneg) in Hfetch. by injection Hfetch as _ <-.
  - destruct (fetch_image_urls_run query num_images resolution s)
      as (w & evs & exit & Hrun & Heq).
    rewrite Heq in Hfetch. injection Hfetch as <- Hout.
    destruct exit as [[v|image_urls]|e]; simplify_eq.
    + by apply pages_run_collects in Hrun as [_ ->].
    + replace num_images with 0 by lia. unfold py_slice_to. simpl. by rewrite take_0.
Qed.

(** X5. For [num_images >= 0] a run of [fetch_image_urls] sends at least one
    and at most [num_images // 80 + 1] requests: exactly one below 80
    images, and never more than 13 within the widget's maximum of 1000. *)
Theorem fetch_image_urls_request_count query num_images resolution s s' out evs :
  0 ≤ num_images →
  fetch_image_urls query num_images resolution s = (s', out) →
  events s' = events s ++ evs →
  1 ≤ Z.of_nat (requests evs) ≤ num_images / 80 + 1 ∧
  (num_images < 80 → requests evs = 1%nat) ∧
  (num_images ≤ 1000 → (requests evs ≤ 13)%nat).
Proof.
  intros Hnum Hfetch Hlog.
  destruct (fetch_image_urls_run query num_images resolution s)
    as (w & evs' & exit & Hrun & Heq).
  rewrite Heq in Hfetch. injection Hfetch as <- <-. simpl in Hlog.
  apply app_inv_head in Hlog as <-.
  apply pages_run_request_count in Hrun as [Hle Hge].
  rewrite py_range_length in Hle.
  assert (Hdiv : 0 ≤ num_images / 80) by (apply Z.div_pos; lia).
  assert (Hne : py_range 1 (num_images / 80 + 1 + 1) ≠ []).
  { intros Hnil. apply (f_equal length) in Hnil. rewrite py_range_length in Hnil.
    simpl in Hnil. lia. }
  specialize (Hge Hne). split; [lia|]. split.
  - intros Hsmall. rewrite Z.div_small in Hle by lia.
    change (Z.to_nat (0 + 1 + 1 - 1)) with 1%nat in Hle. clear -Hle Hge. lia.
  - intros Hmax. assert (num_images / 80 < 13) by (apply Z.div_lt_upper_bound; lia). lia.
Qed.

(** ** Further properties of the two image loops *)

Lemma filter_trace_cons emb url urls o os :
  filter_trace emb (url :: urls) (o :: os) =
    HttpGet (image_request url) o ::
    match scoring_error emb o with
    | Some e => [StError ("Error processing image: " +:+ e)]
    | None => []
    end ++ filter_trace emb urls os.
Proof. done. Qed.

Lemma filter_trace_requests emb urls os :
  filter is_request (filter_trace emb urls os) =
    zip_with (λ url o, HttpGet (image_request url) o) urls os.
Proof.
  revert os. induction urls as [|url urls IH]; intros [|o os]; try done.
  rewrite filter_trace_cons, filter_cons. simpl. rewrite filter_app, IH.
  by destruct (scoring_error emb o).
Qed.

Lemma filter_trace_reports emb urls os msg :
  StError msg ∈ filter_trace emb urls os ↔
  ∃ (i : nat) url o e,
    urls !! i = Some url ∧ os !! i = Some o ∧ scoring_error emb o = Some e ∧
    msg = "Error processing image: " +:+ e.
Proof.
  revert os. induction urls as [|url urls IH]; intros [|o os].
  - split; [by intros ?%elem_of_nil|]. by intros (i & ? & ? & ? & ? & _).
  - split; [by intros ?%elem_of_nil|]. by intros (i & ? & ? & ? & ? & _).
  - split; [by intros ?%elem_of_nil|]. by intros (i & ? & ? & ? & _ & ? & _).
  - rewrite filter_trace_cons, elem_of_cons, elem_of_app, IH. split.
    + intros [?|[Hhere|(i & url' & o' & e & ? & ? & ? & ?)]]; [done| |].
      * destruct (scoring_error emb o) as [e|] eqn:He; [|by apply elem_of_nil in Hhere].
        apply list_elem_of_singleton in Hhere as [= ->]. by exists 0%nat, url, o, e.
      * by exists (S i), url', o', e.
    + intros ([|i] & url' & o' & e & Hurl & Ho & He & ->); simpl in *.
      * simplify_eq. right. left. rewrite He. by apply list_elem_of_singleton.
      * right. right. by exists i, url', o', e.
Qed.

Lemma zip_trace_requests i urls os :
  filter is_request (zip_trace i urls os) =
    zip_with (λ url o, HttpGet (image_request url) o) urls os.
Proof.
  revert i os. induction urls as [|url urls IH]; intros i [|o os]; try done.
  simpl. rewrite filter_cons. simpl. rewrite filter_app, IH.
  by destruct o.
Qed.

Lemma zip_trace_reports i urls os msg :
  StError msg ∈ zip_trace i urls os ↔
  ∃ (k : nat) url e,
    urls !! k = Some url ∧ os !! k = Some (Raise e) ∧
    msg = "Error downloading image " +:+ pretty (i + Z.of_nat k + 1) +:+ ": " +:+ e.
Proof.
  revert i os. induction urls as [|url urls IH]; intros i [|o os].
  - split; [by intros ?%elem_of_nil|]. by intros (k & ? & ? & ? & _).
  - split; [by intros ?%elem_of_nil|]. by intros (k & ? & ? & ? & _).
  - split; [by intros ?%elem_of_nil|]. by intros (k & ? & ? & _ & ? & _).
  - simpl. rewrite elem_of_cons, elem_of_app, IH. split.
    + intros [?|[Hhere|(k & url' & e & ? & ? & ->)]]; [done| |].
      * destruct o as [r|e]; [by apply elem_of_nil in Hhere|].
        apply list_elem_of_singleton in Hhere as [= ->].
        exists 0%nat, url, e. by rewrite Z.add_0_r.
      * exists (S k), url', e. split_and!; try done. do 3 f_equal. lia.
    + intros ([|k] & url' & e & Hurl & Ho & ->); simpl in *.
      * simplify_eq. right. left. rewrite Z.add_0_r. by apply list_elem_of_singleton.
      * right. right. exists k, url', e. split_and!; try done. do 3 f_equal. lia.
Qed.

Lemma kept_all emb urls os :
  length os = length urls → Forall (λ o, scores_above emb o = true) os →
  kept emb urls os = urls.
Proof.
  unfold kept. revert os. induction urls as [|url urls IH]; intros [|o os] Hlen Hall;
    simplify_eq/=; [done|].
  apply Forall_cons in Hall as [Ho Hall].
  rewrite filter_cons. simpl. rewrite Ho. simpl. f_equal. by apply IH.
Qed.

Lemma archive_all_ok i (resps : list Response) :
  Forall (λ r, status_code r = 200) resps →
  archive i (Return <$> resps) =
    imap (λ k r, (member_name (i + Z.of_nat k), content r)) resps.
Proof.
  revert i. induction resps as [|r resps IH]; intros i Hall; [done|].
  apply Forall_cons in Hall as [Hr Hall].
  simpl. unfold entry, ok200. rewrite Hr. simpl. rewrite Z.add_0_r. f_equal.
  rewrite IH by done. unfold compose. apply imap_ext. intros k r' _. simpl.
  do 2 f_equal. lia.
Qed.

Lemma archive_indices i os :
  ∃ idx : list nat,
    (archive i os).*1 = (λ k : nat, member_name (i + Z.of_nat k)) <$> idx ∧
    StronglySorted lt idx ∧
    Forall (λ k, (k < length os)%nat) idx.
Proof.
  revert i. induction os as [|o os IH]; intros i.
  - exists []. split_and!; constructor.
  - destruct (IH (i + 1)) as (idx & Hnames & Hsorted & Hbound).
    exists (match entry i o with Some _ => [0%nat] | None => [] end ++ (S <$> idx)).
    split_and!.
    + simpl. rewrite !fmap_app, Hnames, <- list_fmap_compose.
      f_equal.
      * destruct (entry i o) as [m|] eqn:Hentry; [|done]. simpl.
        unfold entry in Hentry. destruct (ok200 o); simplify_eq/=.
        by rewrite Z.add_0_r.
      * apply list_fmap_ext. intros _ k _. simpl. f_equal. lia.
    + apply StronglySorted_app. split_and!.
      * intros x1 x2 Hx1 (k & -> & _)%list_elem_of_fmap.
        destruct (entry i o); [|by apply elem_of_nil in Hx1].
        apply list_elem_of_singleton in Hx1 as ->. lia.
      * destruct (entry i o); repeat constructor.
      * eapply StronglySorted_fmap; [|done]. intros x y. simpl. lia.
    + apply Forall_app. split.
      * destruct (entry i o); [apply Forall_singleton; simpl; lia|constructor].
      * apply Forall_fmap. eapply Forall_impl; [done|]. intros k. simpl. lia.
Qed.

(** X6. The query is encoded outside the loop's [try]: when the model
    cannot encode it, [filter_images] raises at once, before any image is
    requested, and with filtering on the handler raises too, after the
    fetch, without showing any of the fetched URLs. *)
Theorem unencodable_query_aborts query e :
  encode_text query = Raise e →
  (∀ urls s, filter_images urls query s = (s, Raise e)) ∧
  (∀ num_images resolution s s1 urls,
     query ≠ "" →
     fetch_image_urls query num_images resolution
       {| world := world s; events := events s ++ [StSpinner "Fetching images..."] |} =
       (s1, Return urls) →
     fetch_button_handler query num_images resolution true s = (s1, Raise e)).
Proof.
  intros Hemb.
  assert (Hfilter : ∀ urls s, filter_images urls query s = (s, Raise e)).
  { intros urls s. unfold filter_images, bind, eval. by rewrite Hemb. }
  split; [done|].
  intros num_images resolution s s1 urls Hquery Hfetch.
  unfold fetch_button_handler.
  destruct (String.eqb_spec query "") as [?|_]; [done|].
  unfold bind at 1, fetch_block, bind at 1, emit, bind at 1.
  by rewrite Hfetch, Hfilter.
Qed.

(** X7. [filter_images] requests every input URL exactly once, in input
    order, whatever happened to the URLs before it; and it reports exactly
    the URLs whose processing raised, with the text of the exception. *)
Theorem filter_images_log urls query emb s s' out evs :
  encode_text query = Return emb →
  filter_images urls query s = (s', out) →
  events s' = events s ++ evs →
  filter is_request evs =
    zip_with (λ url o, HttpGet (image_request url) o) urls (answers urls (world s)) ∧
  (∀ msg, StError msg ∈ evs ↔
     ∃ (i : nat) url o e,
       urls !! i = Some url ∧ answers urls (world s) !! i = Some o ∧
       scoring_error emb o = Some e ∧ msg = "Error processing image: " +:+ e).
Proof.
  intros Hemb Hrun Hlog. rewrite (filter_images_run _ _ _ _ Hemb) in Hrun.
  injection Hrun as <- _. simpl in Hlog. apply app_inv_head in Hlog as <-.
  split; [apply filter_trace_requests|]. intros msg. apply filter_trace_reports.
Qed.

(** X8. [filter_images] does not look at the status code, while
    [download_images_as_zip] does: when every URL is answered with a status
    other than 200 and a body that scores above 0.2, the filter keeps all
    the URLs and the archive of the same URLs is empty. *)
Theorem filter_keeps_what_zip_skips urls query emb s resps :
  encode_text query = Return emb →
  answers urls (world s) = Return <$> resps →
  Forall (λ r, status_code r ≠ 200 ∧
               ∃ x, image_similarity emb (content r) = Return x ∧
                    exceeds literal_0_2 x) resps →
  (∃ s', filter_images urls query s = (s', Return urls)) ∧
  (∃ s' zip_buffer,
     download_images_as_zip urls s = (s', Return zip_buffer) ∧
     members zip_buffer = []).
Proof.
  intros Hemb Hanswers Hall. split.
  - eexists. rewrite (filter_images_run _ _ _ _ Hemb). do 2 f_equal.
    apply kept_all; [apply answers_length|].
    rewrite Hanswers. apply Forall_fmap. eapply Forall_impl; [done|].
    intros r (_ & x & Hx & Hgt). unfold compose, scores_above, score. simpl.
    rewrite Hx. by apply float_gt_exceeds.
  - do 2 eexists. split; [apply download_images_as_zip_run|]. simpl.
    apply archive_none. rewrite Hanswers.
    intros o (r & -> & Hr)%list_elem_of_fmap.
    rewrite Forall_forall in Hall. destruct (Hall r Hr) as [Hcode _].
    unfold ok200. by apply Z.eqb_neq in Hcode as ->.
Qed.

(** X9. The members of the archive follow the input order: their names are
    [image_{i+1}.jpg] for a strictly increasing list of indices [i] of the
    input, so there are at most as many members as URLs. *)
Theorem download_images_as_zip_order urls s :
  ∃ s' zip_buffer (idx : list nat),
    download_images_as_zip urls s = (s', Return zip_buffer) ∧
    (members zip_buffer).*1 =
      (λ i : nat, "image_" +:+ pretty (Z.of_nat i + 1) +:+ ".jpg") <$> idx ∧
    StronglySorted lt idx ∧
    Forall (λ i, (i < length urls)%nat) idx.
Proof.
  destruct (archive_indices 0 (answers urls (world s))) as (idx & Hnames & Hsorted & Hbound).
  do 2 eexists. exists idx. split; [apply download_images_as_zip_run|]. simpl.
  rewrite answers_length in Hbound. split_and!; done.
Qed.

(** X10. When every URL is answered with status 200, the archive has one
    member per URL, [image_1.jpg] to [image_n.jpg] in input order, each
    holding the body of its answer. *)
Theorem download_images_as_zip_complete urls s resps :
  answers urls (world s) = Return <$> resps →
  Forall (λ r, status_code r = 200) resps →
  ∃ s' zip_buffer,
    download_images_as_zip urls s = (s', Return zip_buffer) ∧
    members zip_buffer =
      imap (λ i r, ("image_" +:+ pretty (Z.of_nat i + 1) +:+ ".jpg", content r)) resps ∧
    length (members zip_buffer) = length urls.
Proof.
  intros Hanswers Hall. do 2 eexists. split; [apply download_images_as_zip_run|].
  simpl. rewrite Hanswers, archive_all_ok by done. split; [done|].
  rewrite length_imap. apply (f_equal length) in Hanswers.
  by rewrite answers_length, length_fmap in Hanswers.
Qed.

(** X11. [download_images_as_zip] requests every input URL exactly once, in
    input order, and reports exactly the downloads that raised, by their
    number [i+1]; an answer with another status than 200 is skipped without
    a report. *)
Theorem download_images_as_zip_log urls s s' out evs :
  download_images_as_zip urls s = (s', out) →
  events s' = events s ++ evs →
  filter is_request evs =
    zip_with (λ url o, HttpGet (image_request url) o) urls (answers urls (world s)) ∧
  (∀ msg, StError msg ∈ evs ↔
     ∃ (i : nat) url e,
       urls !! i = Some url ∧ answers urls (world s) !! i = Some (Raise e) ∧
       msg = "Error downloading image " +:+ pretty (Z.of_nat i + 1) +:+ ": " +:+ e).
Proof.
  intros Hrun Hlog. rewrite download_images_as_zip_run in Hrun.
  injection Hrun as <- _. simpl in Hlog. apply app_inv_head in Hlog as <-.
  split; [apply zip_trace_requests|]. intros msg. apply zip_trace_reports.
Qed.

(** ** Further properties of the button handler *)

Lemma show_block_run query image_urls s :
  image_urls ≠ [] →
  show_block query image_urls s =
    match rejection (py_slice_to image_urls MAX_DISPLAY) with
    | Some e =>
        ({| world := world s;
            events := events s ++
              [StSuccess ("Fetched " +:+ pretty (len image_urls)
                          +:+ " images successfully! 🎉");
               StColumns (Z.min 5 (len image_urls))] ++
              thumbnails (Z.min 5 (len image_urls)) 0
                (shown (py_slice_to image_urls MAX_DISPLAY)) |},
         Raise e)
    | None =>
        ({| world := world_after image_urls (world s);
            events := events s ++
              [StSuccess ("Fetched " +:+ pretty (len image_urls)
                          +:+ " images successfully! 🎉");
               StColumns (Z.min 5 (len image_urls))] ++
              thumbnails (Z.min 5 (len image_urls)) 0
                (shown (py_slice_to image_urls MAX_DISPLAY)) ++
              [StWrite ("Showing " +:+ pretty (Z.min (len image_urls) MAX_DISPLAY)
                        +:+ " out of " +:+ pretty (len image_urls) +:+ " images.")] ++
              zip_trace 0 image_urls (answers image_urls (world s)) ++
              [StDownloadButton "📥 Download All Images as ZIP"
                 {| members := archive 0 (answers image_urls (world s));
                    closed := true; pos := 0 |}
                 (query +:+ "_images.zip") "application/zip"] |},
         Return tt)
    end.
Proof.
  intros Hne.
  assert (Hpos : (Z.min 5 (len image_urls) <=? 0) = false).
  { apply Z.leb_gt. destruct image_urls; [done|]. unfold len. simpl. lia. }
  unfold show_block, bind, emit, st_columns. rewrite Hpos.
  unfold bind, emit, ret. rewrite show_loop_run.
  destruct (rejection (py_slice_to image_urls MAX_DISPLAY)) as [e|]; simpl.
  - by rewrite <- !app_assoc.
  - rewrite download_images_as_zip_run. simpl. by rewrite <- !app_assoc.
Qed.

Lemma shown_lookup image_urls (k : nat) url :
  shown image_urls !! k = Some url → image_urls !! k = Some url.
Proof.
  revert k. induction image_urls as [|url' rest IH]; intros k; simpl; [done|].
  destruct (st_image url'); [|done]. destruct k; simpl; [done|]. apply IH.
Qed.

Lemma zip_trace_events i urls os ev :
  ev ∈ zip_trace i urls os → is_request ev = true ∨ is_report ev = true.
Proof.
  revert i os. induction urls as [|url urls IH]; intros i [|o os] Hin;
    try by apply elem_of_nil in Hin.
  simpl in Hin. apply elem_of_cons in Hin as [->|Hin]; [by left|].
  apply elem_of_app in Hin as [Hin|Hin]; [|by eauto].
  destruct o; [by apply elem_of_nil in Hin|].
  apply list_elem_of_singleton in Hin as ->. by right.
Qed.

Lemma py_range_cons a b : a < b → py_range a b = a :: py_range (a + 1) b.
Proof.
  intros Hlt. unfold py_range.
  replace (Z.to_nat (b - a)) with (S (Z.to_nat (b - (a + 1)))) by lia.
  simpl. rewrite Z.add_0_r. f_equal.
  rewrite <- fmap_S_seq, <- list_fmap_compose.
  apply list_fmap_ext. intros _ k _. simpl. lia.
Qed.

Lemma fetch_image_urls_first_refused query num_images resolution s w resp :
  0 ≤ num_images →
  requests_get (page_request query num_images 80 1 []) (world s) = (w, Return resp) →
  status_code resp ≠ 200 →
  fetch_image_urls query num_images resolution s =
    ({| world := w;
        events := events s ++
          [HttpGet (page_request query num_images 80 1 []) (Return resp);
           StError ("Failed to fetch images: " +:+ pretty (status_code resp))] |},
     Return []).
Proof.
  intros Hnum Hget Hcode.
  assert (Hdiv : 0 ≤ num_images / 80) by (apply Z.div_pos; lia).
  unfold fetch_image_urls. rewrite py_range_cons by lia.
  cbn [fetch_pages]. fold (page_request query num_images 80 1 []).
  unfold bind, http_get. rewrite Hget.
  apply Z.eqb_neq in Hcode. rewrite Hcode.
  unfold emit, ret. simpl. by rewrite <- app_assoc.
Qed.

(** X12. Every thumbnail lands in an existing column: the thumbnail of the
    [k]-th URL, [k < 20], is shown in column [k % min(5, n)], which lies
    between 0 and [min(5, n) - 1]; no other URL is shown. *)
Theorem thumbnails_in_columns query image_urls s s' out evs col url :
  image_urls ≠ [] →
  show_block query image_urls s = (s', out) →
  events s' = events s ++ evs →
  StImage col url ∈ evs →
  0 ≤ col < Z.min 5 (len image_urls) ∧
  ∃ k : nat, (k < 20)%nat ∧ image_urls !! k = Some url ∧
             col = Z.of_nat k mod Z.min 5 (len image_urls).
Proof.
  intros Hne Hrun Hlog Hin. rewrite (show_block_run _ _ _ Hne) in Hrun.
  assert (Hcols : 0 < Z.min 5 (len image_urls)).
  { destruct image_urls; [done|]. unfold len. simpl. lia. }
  assert (Hthumb : StImage col url ∈ thumbnails (Z.min 5 (len image_urls)) 0
                                       (shown (py_slice_to image_urls MAX_DISPLAY)) →
    0 ≤ col < Z.min 5 (len image_urls) ∧
    ∃ k : nat, (k < 20)%nat ∧ image_urls !! k = Some url ∧
               col = Z.of_nat k mod Z.min 5 (len image_urls)).
  { intros (k & url' & [= -> ->] & Hk)%elem_of_lookup_imap.
    apply shown_lookup in Hk.
    unfold py_slice_to, MAX_DISPLAY in Hk. simpl in Hk.
    apply lookup_take_Some in Hk as [Hk Hlt]. simpl. rewrite Z.add_0_l. split.
    - by apply Z.mod_pos_bound.
    - exists k. split_and!; [lia|done|done]. }
  destruct (rejection (py_slice_to image_urls MAX_DISPLAY)) as [e|];
    injection Hrun as <- _; simpl in Hlog; apply app_inv_head in Hlog as <-.
  - apply elem_of_cons in Hin as [?|Hin]; [done|].
    apply elem_of_cons in Hin as [?|Hin]; [done|]. by apply Hthumb.
  - apply elem_of_cons in Hin as [?|Hin]; [done|].
    apply elem_of_cons in Hin as [?|Hin]; [done|].
    apply elem_of_app in Hin as [Hin|Hin]; [by apply Hthumb|].
    apply elem_of_cons in Hin as [?|Hin]; [done|].
    apply elem_of_app in Hin as [Hin|Hin].
    + by apply zip_trace_events in Hin as [?|?].
    + by apply list_elem_of_singleton in Hin.
Qed.

(** X13. When the first page request is answered with a status other than
    200, the user sees the spinner and the failure report and nothing else:
    the handler ends normally, without success message, thumbnails or
    download button. *)
Theorem handler_on_refusal query num_images resolution ai_filter s w resp :
  query ≠ "" →
  0 ≤ num_images →
  requests_get (page_request query num_images 80 1 []) (world s) = (w, Return resp) →
  status_code resp ≠ 200 →
  (ai_filter = true → ∃ emb, encode_text query = Return emb) →
  fetch_button_handler query num_images resolution ai_filter s =
    ({| world := w;
        events := events s ++
          [StSpinner "Fetching images...";
           HttpGet (page_request query num_images 80 1 []) (Return resp);
           StError ("Failed to fetch images: " +:+ pretty (status_code resp))] |},
     Return tt).
Proof.
  intros Hquery Hnum Hget Hcode Hemb.
  unfold fetch_button_handler.
  destruct (String.eqb_spec query "") as [?|_]; [done|].
  unfold bind at 1, fetch_block, bind at 1, emit, bind at 1.
  rewrite (fetch_image_urls_first_refused _ _ _ _ w resp) by done.
  simpl. rewrite <- !app_assoc. simpl.
  destruct ai_filter; [|done].
  destruct (Hemb eq_refl) as [emb Hq]. unfold filter_images, bind, eval.
  rewrite Hq. simpl. unfold ret. done.
Qed.

(** X14. With filtering on, the archive is not made of the bodies that were
    scored: after the filter has requested every fetched URL, and when
    [st.image] shows the kept URLs it previews, the handler requests each
    kept URL a second time and the download button carries the archive of
    those second answers. *)
Theorem handler_downloads_again query num_images resolution emb s s1 urls :
  query ≠ "" →
  encode_text query = Return emb →
  fetch_image_urls query num_images resolution
    {| world := world s; events := events s ++ [StSpinner "Fetching images..."] |} =
    (s1, Return urls) →
  let image_urls := kept emb urls (answers urls (world s1)) in
  let w := world_after urls (world s1) in
  image_urls ≠ [] →
  Forall (λ url, st_image url = Return tt) (take 20 image_urls) →
  ∃ s',
    fetch_button_handler query num_images resolution true s = (s', Return tt) ∧
    world s' = world_after image_urls w ∧
    last (events s') = Some
      (StDownloadButton "📥 Download All Images as ZIP"
         {| members := archive 0 (answers image_urls w); closed := true; pos := 0 |}
         (query +:+ "_images.zip") "application/zip").
Proof.
  intros Hquery Hemb Hfetch image_urls w Hne Hshown. eexists.
  apply shown_all in Hshown as [_ Hnone].
  unfold fetch_button_handler.
  destruct (String.eqb_spec query "") as [?|_]; [done|].
  unfold bind at 1, fetch_block, bind at 1, emit, bind at 1.
  rewrite Hfetch, (filter_images_run _ _ _ _ Hemb).
  fold image_urls. fold w.
  destruct image_urls as [|url rest] eqn:Hurls; [done|]. rewrite <- Hurls in *.
  rewrite show_block_run by (by rewrite Hurls).
  unfold py_slice_to, MAX_DISPLAY. simpl. change (Z.to_nat 20) with 20%nat.
  rewrite Hnone. simpl.
  split_and!; [done|done|].
  cbn [events]. rewrite !app_comm_cons, !app_assoc. apply last_snoc.
Qed.

Lemma rejection_at image_urls (k : nat) url e :
  image_urls !! k = Some url →
  Forall (λ u, st_image u = Return tt) (take k image_urls) →
  st_image url = Raise e →
  shown image_urls = take k image_urls ∧ rejection image_urls = Some e.
Proof.
  revert k. induction image_urls as [|url' rest IH]; intros k Hk Hbefore Hurl; [done|].
  destruct k as [|k]; simpl in *.
  - injection Hk as ->. by rewrite Hurl.
  - apply Forall_cons in Hbefore as [Hurl' Hbefore]. rewrite Hurl'.
    destruct (IH k Hk Hbefore Hurl) as [-> ->]. done.
Qed.

(** X19. [st.image] is called in no [try]: when it raises on one of the
    first 20 URLs of the fetch block, the handler ends with that exception
    right after the thumbnails of the URLs before it; the count is not
    written, no URL is requested for the archive and no download button is
    offered. *)
Theorem preview_stops_at_rejected_url
    query num_images resolution ai_filter s s1 image_urls (k : nat) url e :
  query ≠ "" →
  fetch_block query num_images resolution ai_filter s = (s1, Return image_urls) →
  (k < 20)%nat →
  image_urls !! k = Some url →
  Forall (λ u, st_image u = Return tt) (take k image_urls) →
  st_image url = Raise e →
  fetch_button_handler query num_images resolution ai_filter s =
    ({| world := world s1;
        events := events s1 ++
          [StSuccess ("Fetched " +:+ pretty (len image_urls) +:+ " images successfully! 🎉");
           StColumns (Z.min 5 (len image_urls))] ++
          imap (λ j u, StImage (Z.of_nat j mod Z.min 5 (len image_urls)) u)
            (take k image_urls) |},
     Raise e).
Proof.
  intros Hquery Hfetch Hk Hlook Hbefore Hurl.
  assert (Hne : image_urls ≠ []) by (by destruct image_urls).
  assert (Hrej : shown (take 20 image_urls) = take k image_urls ∧
                 rejection (take 20 image_urls) = Some e).
  { replace (take k image_urls) with (take k (take 20 image_urls))
      by (rewrite take_take; f_equal; lia).
    apply (rejection_at _ k url); [|by rewrite take_take, Nat.min_l by lia|done].
    rewrite lookup_take_Some. split; [done|lia]. }
  destruct Hrej as [Hshown Hrej].
  unfold fetch_button_handler.
  destruct (String.eqb_spec query "") as [?|_]; [done|].
  unfold bind at 1. rewrite Hfetch.
  destruct image_urls as [|url0 rest] eqn:Hurls; [done|]. rewrite <- Hurls in *.
  rewrite show_block_run by done.
  unfold py_slice_to, MAX_DISPLAY. simpl. change (Z.to_nat 20) with 20%nat.
  rewrite Hrej, Hshown. done.
Qed.

(** ** Properties of the page script *)

Lemma script_run inp p :
  script inp p =
    let '(s, r) := fetch_step inp {| world := page_world p; events := [] |} in
    let log := page_log p ++ header ++ (App <$> events s) in
    match r with
    | Raise e =>
        ({| page_world := world s; page_log := log;
            session_state := session_state p |}, Stop e)
    | Return _ =>
        if clicked inp "Clear Images" then
          ({| page_world := world s;
              page_log := log ++ [SidebarButton "Clear Images"];
              session_state := <["image_urls" := []]> (session_state p) |}, Rerun)
        else
          ({| page_world := world s;
              page_log := log ++ [SidebarButton "Clear Images"; Markdown footer_style true];
              session_state := session_state p |}, Next tt)
    end.
Proof.
  unfold script, page_bind, render, page_ret, fetch_step, header. simpl.
  destruct (clicked inp "Fetch Images"); simpl.
  - unfold run. simpl.
    destruct (fetch_button_handler _ _ _ _ _) as [s [[]|e]]; simpl.
    + destruct (clicked inp "Clear Images"); simpl;
        unfold set_session_state, st_rerun; simpl;
        repeat (rewrite <- ?app_assoc; simpl); done.
    + repeat (rewrite <- ?app_assoc; simpl); done.
  - unfold ret. simpl.
    destruct (clicked inp "Clear Images"); simpl;
      unfold set_session_state, st_rerun; simpl;
      repeat (rewrite <- ?app_assoc; simpl); done.
Qed.

(** X15. "Clear Images", in a run whose fetch step does not raise, stores
    the empty list under [image_urls], leaves every other entry of the
    session state alone and asks for a rerun right after its button: the
    footer of that run is never rendered. *)
Theorem clear_resets_and_reruns inp p s p' c :
  clicked inp "Clear Images" = true →
  fetch_step inp {| world := page_world p; events := [] |} = (s, Return tt) →
  script inp p = (p', c) →
  c = Rerun ∧
  session_state p' !! "image_urls" = Some [] ∧
  (∀ key, key ≠ "image_urls" → session_state p' !! key = session_state p !! key) ∧
  last (page_log p') = Some (SidebarButton "Clear Images").
Proof.
  intros Hclear Hfetch Hrun. rewrite script_run, Hfetch, Hclear in Hrun.
  injection Hrun as <- <-. split_and!.
  - done.
  - apply lookup_insert_eq.
  - intros key Hkey. by apply lookup_insert_ne.
  - cbn [page_log]. apply last_snoc.
Qed.

(** X16. A search request that raises ends the whole run: with a keyword
    and "Fetch Images" clicked, when the first page request raises, the page
    shows the header and the spinner and stops on that exception; the
    "Clear Images" button and the footer are not rendered and the session
    state is untouched. *)
Theorem page_stops_on_request_error inp p w e p' c :
  clicked inp "Fetch Images" = true →
  typed inp ≠ "" →
  0 ≤ number inp →
  requests_get (page_request (typed inp) (number inp) 80 1 []) (page_world p) = (w, Raise e) →
  script inp p = (p', c) →
  c = Stop e ∧
  page_world p' = w ∧
  session_state p' = session_state p ∧
  page_log p' = page_log p ++ header ++
    [App (StSpinner "Fetching images...");
     App (HttpGet (page_request (typed inp) (number inp) 80 1 []) (Raise e))].
Proof.
  intros Hfetch Hquery Hnum Hget Hrun.
  assert (Hdiv : 0 ≤ number inp / 80) by (apply Z.div_pos; lia).
  assert (Hstep : fetch_step inp {| world := page_world p; events := [] |} =
                  ({| world := w;
                      events := [StSpinner "Fetching images...";
                                 HttpGet (page_request (typed inp) (number inp) 80 1 [])
                                   (Raise e)] |}, Raise e)).
  { unfold fetch_step, fetch_button_handler. rewrite Hfetch.
    destruct (String.eqb_spec (typed inp) "") as [?|_]; [done|].
    unfold bind at 1, fetch_block, bind at 1, emit, bind at 1, fetch_image_urls.
    rewrite py_range_cons by lia. cbn [fetch_pages].
    fold (page_request (typed inp) (number inp) 80 1 []).
    unfold bind, http_get. simpl. by rewrite Hget. }
  rewrite script_run, Hstep in Hrun. by injection Hrun as <- <-.
Qed.

(** X17. The page contacts the network only on request: in a run where
    "Fetch Images" was not clicked, or the keyword is empty, the world is
    unchanged and no HTTP exchange is logged. *)
Theorem page_idle_without_fetch inp p p' c :
  clicked inp "Fetch Images" = false ∨ typed inp = "" →
  script inp p = (p', c) →
  page_world p' = page_world p ∧
  ∃ evs, page_log p' = page_log p ++ evs ∧ ∀ rq r, App (HttpGet rq r) ∉ evs.
Proof.
  intros Hidle Hrun.
  assert (Hstep : ∃ evs,
    fetch_step inp {| world := page_world p; events := [] |} =
      ({| world := page_world p; events := evs |}, Return tt) ∧
    ∀ rq r, HttpGet rq r ∉ evs).
  { unfold fetch_step. destruct (clicked inp "Fetch Images") eqn:Hclick.
    - destruct Hidle as [?|Hempty]; [done|]. rewrite Hempty.
      eexists. split; [reflexivity|]. simpl.
      intros rq r Hin. by apply list_elem_of_singleton in Hin.
    - exists []. split; [done|]. intros rq r Hin. by apply elem_of_nil in Hin. }
  destruct Hstep as (evs & Hstep & Hnone).
  assert (Hclean : ∀ tail rq r,
    (∀ ev, ev ∈ tail → ∃ label, ev = SidebarButton label ∨ ∃ b, ev = Markdown label b) →
    App (HttpGet rq r) ∉ header ++ (App <$> evs) ++ tail).
  { intros tail rq r Htail Hin.
    apply elem_of_app in Hin as [Hin|Hin].
    - unfold header in Hin.
      repeat (apply elem_of_cons in Hin as [?|Hin]; [done|]).
      by apply elem_of_nil in Hin.
    - apply elem_of_app in Hin as [Hin|Hin].
      + apply list_elem_of_fmap in Hin as (ev & [= <-] & Hin). by apply (Hnone rq r).
      + destruct (Htail _ Hin) as (label & [?|[b ?]]); done. }
  rewrite script_run, Hstep in Hrun. cbn [events world] in Hrun.
  destruct (clicked inp "Clear Images"); injection Hrun as <- <-; simpl;
    (split; [done|]); eexists; rewrite <- !app_assoc; (split; [reflexivity|]);
    intros rq r; apply Hclean; intros ev Hin;
    repeat (apply elem_of_cons in Hin as [->|Hin]; [by eauto|]);
    by apply elem_of_nil in Hin.
Qed.

(** X18. Nothing on the page depends on the session state: a run from any
    other session state renders the same log, ends the same way and leaves
    the same world, so what "Clear Images" stores is never read. *)
Theorem page_ignores_session_state inp p ss p1 c1 p2 c2 :
  script inp p = (p1, c1) →
  script inp {| page_world := page_world p; page_log := page_log p; session_state := ss |} =
    (p2, c2) →
  page_world p1 = page_world p2 ∧ page_log p1 = page_log p2 ∧ c1 = c2.
Proof.
  rewrite !script_run. simpl.
  destruct (fetch_step inp _) as [s [[]|e]].
  - destruct (clicked inp "Clear Images"); intros [= <- <-] [= <- <-]; done.
  - intros [= <- <-] [= <- <-]. done.
Qed.

End App.

(** ** The program at work in the small world *)


(** The archive skips the numbers of the URLs that failed. *)
Example download_leaves_gaps :
  (download_images_as_zip Demo.get Demo.member_size Demo.directory_size
     ["a"; "gone"; "down"; "c"] Demo.start).2 =
  Return {| members := [("image_1.jpg", [Byte.x01]); ("image_4.jpg", [Byte.x03])];
            closed := true; pos := 0 |}.
Proof. vm_compute. reflexivity. Qed.

(** A query the model cannot encode makes [filter_images] raise before any
    image is requested. *)
Example filter_images_long_query :
  filter_images Demo.get Demo.encode_text Demo.image_similarity ["a"]
    "a very long keyword a very long keyword a very long keyword a very long keyword"
    Demo.start =
  (Demo.start, Raise "Input is too long for context length 77").
Proof. vm_compute. reflexivity. Qed.

(** C1, as stated, fails: with scores 0.3, 0.1, 0.9 and 0.5 the result
    drops the second URL and keeps the others in input order, so it is
    neither a permutation of the input nor sorted by score. *)
Lemma filter_images_not_a_permutation :
  ∃ s',
    filter_images Demo.get Demo.encode_text Demo.image_similarity
      ["a"; "b"; "c"; "d"] "cat" Demo.start = (s', Return ["a"; "c"; "d"]) ∧
    ¬ (["a"; "c"; "d"] ≡ₚ ["a"; "b"; "c"; "d"]).
Proof.
  eexists. split; [vm_compute; reflexivity|].
  intros Hperm. apply Permutation_length in Hperm. discriminate.
Qed.

(** The amended C1 on the same run. *)
Lemma filter_images_sublist_witness :
  Demo.encode_text "cat" = Return tt ∧
  ∃ s' out,
    filter_images Demo.get Demo.encode_text Demo.image_similarity
      ["a"; "b"; "c"; "d"] "cat" Demo.start = (s', Return out) ∧
    out `sublist_of` ["a"; "b"; "c"; "d"] ∧
    (out ≡ₚ ["a"; "b"; "c"; "d"] → out = ["a"; "b"; "c"; "d"]).
Proof.
  split; [reflexivity|].
  apply (filter_images_sublist Demo.get Demo.encode_text Demo.image_similarity
           ["a"; "b"; "c"; "d"] "cat" tt Demo.start).
  reflexivity.
Defined.

(** C2 on a run with a low score and an unreachable URL. *)
Lemma filter_images_keeps_scores_above_witness :
  Demo.encode_text "cat" = Return tt ∧
  ∃ s',
    filter_images Demo.get Demo.encode_text Demo.image_similarity
      ["a"; "b"; "down"; "c"] "cat" Demo.start =
      (s', Return (filter (λ p, scores_above Demo.image_similarity tt p.2)
                     (zip ["a"; "b"; "down"; "c"]
                        (answers Demo.get ["a"; "b"; "down"; "c"] (world Demo.start)))).*1) ∧
    (filter (λ p, scores_above Demo.image_similarity tt p.2)
       (zip ["a"; "b"; "down"; "c"]
          (answers Demo.get ["a"; "b"; "down"; "c"] (world Demo.start)))).*1
      `sublist_of` ["a"; "b"; "down"; "c"] ∧
    (∀ o, scores_above Demo.image_similarity tt o = true ↔
          ∃ x, score Demo.image_similarity tt o = Some x ∧ exceeds literal_0_2 x).
Proof.
  split; [reflexivity|].
  apply (filter_images_keeps_scores_above Demo.get Demo.encode_text Demo.image_similarity
           ["a"; "b"; "down"; "c"] "cat" tt Demo.start).
  reflexivity.
Defined.

(** The URLs kept in that run. *)
Example filter_images_keeps_a_and_c :
  (filter_images Demo.get Demo.encode_text Demo.image_similarity
     ["a"; "b"; "down"; "c"] "cat" Demo.start).2 = Return ["a"; "c"].
Proof. vm_compute. reflexivity. Qed.

(** C3 on a run of two pages: two photos, then status 429. *)
Lemma fetch_image_urls_refused_witness :
  let first := HttpGet (page_request (Some "key") "cat" 100 80 1 []) (Return Demo.page_of_two) in
  let second := page_request (Some "key") "cat" 100 80 2 ["cat_small"; "dog_small"] in
  let report := [StError ("Failed to fetch images: " +:+ pretty (status_code Demo.too_many_requests))] in
  let s' := {| world := 2%nat;
               events := [first] ++ HttpGet second (Return Demo.too_many_requests) :: report |} in
  fetch_image_urls Demo.get (Some "key") "cat" 100 "640x480" Demo.start = (s', Return []) ∧
  status_code Demo.too_many_requests ≠ 200 ∧
  Return [] = Return (@nil string) ∧
  report = [StError ("Failed to fetch images: " +:+ pretty (status_code Demo.too_many_requests))].
Proof.
  intros first second report s'.
  split; [vm_compute; reflexivity|].
  split; [vm_compute; discriminate|].
  apply (fetch_image_urls_refused Demo.get (Some "key") "cat" 100 "640x480" Demo.start
           s' (Return []) [first] second Demo.too_many_requests report);
    [vm_compute; reflexivity | reflexivity | vm_compute; discriminate].
Defined.

(** C4 on the same run. *)
Lemma fetch_image_urls_pagination_witness :
  1 ≤ 100 ∧
  ∃ s' out,
    fetch_image_urls Demo.get (Some "key") "cat" 100 "640x480" Demo.start = (s', out) ∧
    (∀ pre rq r post,
       events s' = events Demo.start ++ pre ++ HttpGet rq r :: post →
       req_params rq = Some
         {| param_query := "cat";
            param_per_page := Z.min 80 (100 - len (received pre));
            param_page := Z.of_nat (requests pre) + 1 |} ∧
       len (received pre) < 100 ∧
       Z.of_nat (requests pre) + 1 ≤ 100 / 80 + 1) ∧
    (∀ urls, out = Return urls → len urls ≤ 100) ∧
    (∀ evs,
       events s' = events Demo.start ++ evs →
       (1 ≤ requests evs)%nat ∧
       (∀ urls, out = Return urls → existsb refused evs = false →
          100 ≤ len (received evs) ∨ Z.of_nat (requests evs) = 100 / 80 + 1)).
Proof.
  split; [lia|]. eexists _, _. split; [vm_compute; reflexivity|].
  apply (fetch_image_urls_pagination Demo.get (Some "key") "cat" 100 "640x480" Demo.start);
    [lia | vm_compute; reflexivity].
Defined.

(** C8 on a run that asks for two photos at 1280x720. *)
Lemma fetch_image_urls_selects_rendition_witness :
  ∃ s',
    fetch_image_urls Demo.get (Some "key") "cat" 2 "1280x720" Demo.start =
      (s', Return ["cat_medium"; "dog_medium"]) ∧
    ∃ evs, events s' = events Demo.start ++ evs ∧
      if existsb refused evs then ["cat_medium"; "dog_medium"] = []
      else Some <$> ["cat_medium"; "dog_medium"] =
             py_slice_to ((λ img, src img !! src_key "1280x720") <$> received evs) 2.
Proof.
  eexists. split; [vm_compute; reflexivity|].
  apply (fetch_image_urls_selects_rendition Demo.get (Some "key") "cat" 2 "1280x720"
           Demo.start _ ["cat_medium"; "dog_medium"]).
  vm_compute. reflexivity.
Defined.

(** C6 on a list whose second URL cannot be reached. *)
Lemma loops_report_and_continue_witness :
  Demo.encode_text "cat" = Return tt ∧
  (∃ s' out,
     filter_images Demo.get Demo.encode_text Demo.image_similarity
       ["a"; "down"; "c"] "cat" Demo.start = (s', Return out) ∧
     events s' = events Demo.start ++
       filter_trace Demo.image_similarity tt ["a"; "down"; "c"]
         (answers Demo.get ["a"; "down"; "c"] (world Demo.start)) ∧
     out = kept Demo.image_similarity tt ["a"; "down"; "c"]
             (answers Demo.get ["a"; "down"; "c"] (world Demo.start))) ∧
  (∃ s' zip_buffer,
     download_images_as_zip Demo.get Demo.member_size Demo.directory_size
       ["a"; "down"; "c"] Demo.start = (s', Return zip_buffer) ∧
     events s' = events Demo.start ++
       zip_trace 0 ["a"; "down"; "c"]
         (answers Demo.get ["a"; "down"; "c"] (world Demo.start)) ∧
     members zip_buffer = archive 0 (answers Demo.get ["a"; "down"; "c"] (world Demo.start))).
Proof.
  split; [reflexivity|].
  apply (loops_report_and_continue Demo.get Demo.encode_text Demo.image_similarity
           Demo.member_size Demo.directory_size ["a"; "down"; "c"] "cat" tt Demo.start).
  reflexivity.
Defined.

(** The log and the result of that run of [filter_images]: the URL that
    cannot be reached is reported and skipped, the next one is still
    requested. *)
Example filter_images_reports_and_continues :
  filter_images Demo.get Demo.encode_text Demo.image_similarity
    ["a"; "down"; "c"] "cat" Demo.start =
  ({| world := 3%nat;
      events := [HttpGet (image_request "a") (Return (Demo.found [Byte.x01]));
                 HttpGet (image_request "down") (Raise "Connection refused");
                 StError "Error processing image: Connection refused";
                 HttpGet (image_request "c") (Return (Demo.found [Byte.x03]))] |},
   Return ["a"; "c"]).
Proof. vm_compute. reflexivity. Qed.

(** C10 on a list where one URL is missing and one cannot be reached. *)
Lemma download_images_as_zip_total_witness :
  (∀ o, o ∈ answers Demo.get ["gone"; "down"] (world Demo.start) → ok200 o = None) ∧
  ∃ s' zip_buffer,
    download_images_as_zip Demo.get Demo.member_size Demo.directory_size
      ["gone"; "down"] Demo.start = (s', Return zip_buffer) ∧
    pos zip_buffer = 0%nat ∧ closed zip_buffer = true ∧ members zip_buffer = [].
Proof.
  assert (Hnone : ∀ o, o ∈ answers Demo.get ["gone"; "down"] (world Demo.start) →
                       ok200 o = None).
  { intros o Ho. simpl in Ho.
    repeat (apply elem_of_cons in Ho as [->|Ho]; [reflexivity|]).
    by apply elem_of_nil in Ho. }
  split; [exact Hnone|].
  destruct (download_images_as_zip_total Demo.get Demo.member_size Demo.directory_size
              ["gone"; "down"] Demo.start) as (s' & zip_buffer & Hrun & Hpos & Hclosed & Hempty).
  exists s', zip_buffer. split_and!; [exact Hrun|exact Hpos|exact Hclosed|exact (Hempty Hnone)].
Defined.

(** C7 on a fetch of two photos from the web, without filtering. *)
Lemma preview_and_archive_witness :
  let image_urls := [Worlds.cat_url; Worlds.dog_url] in
  let block := fetch_block Worlds.web_get (Some "key") Demo.encode_text Demo.image_similarity
                 "cat" 2 "640x480" false Demo.start in
  "cat" ≠ "" ∧
  block = (block.1, Return image_urls) ∧
  image_urls ≠ [] ∧
  Forall (λ url, Demo.st_image url = Return tt) (take 20 image_urls) ∧
  ∃ s2 s3 zip_buffer,
    events s2 = events block.1 ++
      [StSuccess "Fetched 2 images successfully! 🎉"; StColumns 2;
       StImage 0 Worlds.cat_url; StImage 1 Worlds.dog_url;
       StWrite "Showing 2 out of 2 images."] ∧
    download_images_as_zip Worlds.web_get Demo.member_size Demo.directory_size
      image_urls s2 = (s3, Return zip_buffer) ∧
    members zip_buffer =
      [("image_1.jpg", [Byte.x01]); ("image_2.jpg", [Byte.x02])] ∧
    fetch_button_handler Worlds.web_get (Some "key") Demo.encode_text Demo.image_similarity
      Demo.member_size Demo.directory_size Demo.st_image "cat" 2 "640x480" false
      Demo.start =
      ({| world := world s3;
          events := events s3 ++
            [StDownloadButton "📥 Download All Images as ZIP" zip_buffer
               "cat_images.zip" "application/zip"] |},
       Return tt).
Proof.
  intros image_urls block.
  assert (Hquery : "cat" ≠ "") by discriminate.
  assert (Hblock : block = (block.1, Return image_urls))
    by (vm_compute; reflexivity).
  assert (Hne : image_urls ≠ @nil string) by discriminate.
  assert (Hshown : Forall (λ url, Demo.st_image url = Return tt) (take 20 image_urls))
    by (repeat constructor).
  split_and!; [exact Hquery|exact Hblock|exact Hne|exact Hshown|].
  destruct (preview_and_archive Worlds.web_get (Some "key") Demo.encode_text
              Demo.image_similarity Demo.member_size Demo.directory_size Demo.st_image
              "cat" 2 "640x480" false Demo.start
              block.1 image_urls Hquery Hblock Hne Hshown)
    as (s2 & s3 & zip_buffer & Hworld & Hevents & _ & Hzip & Hhandler).
  exists s2, s3, zip_buffer. split_and!; [|exact Hzip| |exact Hhandler].
  - rewrite Hevents. reflexivity.
  - destruct s2 as [w2 evs2]. simpl in Hworld. subst w2.
    rewrite download_images_as_zip_run in Hzip. injection Hzip as _ <-.
    vm_compute. reflexivity.
Defined.

(** ** The further properties at work *)

(** X1 without network. *)
Lemma fetch_image_urls_propagates_witness :
  let rq := page_request (Some "key") "cat" 10 80 1 [] in
  let s' := {| world := 1%nat; events := [HttpGet rq (Raise "Connection refused")] |} in
  fetch_image_urls Worlds.offline_get (Some "key") "cat" 10 "640x480" Demo.start =
    (s', Raise "Connection refused") ∧
  Raise "Connection refused" = @Raise (list string) "Connection refused" ∧ @nil Event = [].
Proof.
  intros rq s'.
  assert (Hrun : fetch_image_urls Worlds.offline_get (Some "key") "cat" 10 "640x480"
                   Demo.start = (s', Raise "Connection refused"))
    by (vm_compute; reflexivity).
  split; [exact Hrun|].
  apply (fetch_image_urls_propagates Worlds.offline_get (Some "key") "cat" 10 "640x480"
           Demo.start s' (Raise "Connection refused") [] rq (Raise "Connection refused") []
           "Connection refused" Hrun); [reflexivity|by left].
Defined.

(** X2 on a page whose second photo has no "small" rendition. *)
Lemma fetch_image_urls_missing_key_witness :
  let rq := page_request (Some "key") "cat" 2 80 1 [] in
  let evs := [HttpGet rq (Return Worlds.partial_page)] in
  let img := {| src := {[ "original" := "dog_original" ]} |} in
  img ∈ received evs ∧
  src img !! src_key "640x480" = None ∧
  fetch_image_urls Worlds.partial_get (Some "key") "cat" 2 "640x480" Demo.start =
    ({| world := 1%nat; events := evs |}, Raise ("'" +:+ src_key "640x480" +:+ "'")).
Proof.
  intros rq evs img.
  assert (Hin : img ∈ received evs) by (right; left).
  assert (Hnone : src img !! src_key "640x480" = None) by reflexivity.
  split; [exact Hin|]. split; [exact Hnone|].
  destruct (fetch_image_urls Worlds.partial_get (Some "key") "cat" 2 "640x480" Demo.start)
    as [s' out] eqn:Hrun.
  assert (Hs : s' = {| world := 1%nat; events := evs |}).
  { vm_compute in Hrun. by injection Hrun as <- _. }
  subst s'. f_equal.
  exact (fetch_image_urls_missing_key Worlds.partial_get (Some "key") "cat" 2 "640x480"
           Demo.start _ out evs img Hrun eq_refl Hin Hnone).
Defined.

(** X3 when five images are asked for and the only page has two. *)
Lemma fetch_image_urls_length_witness :
  let evs := [HttpGet (page_request (Some "key") "cat" 5 80 1 []) (Return Demo.page_of_two)] in
  0 ≤ 5 ∧
  fetch_image_urls Demo.get (Some "key") "cat" 5 "640x480" Demo.start =
    ({| world := 1%nat; events := evs |}, Return ["cat_small"; "dog_small"]) ∧
  existsb refused evs = false ∧
  len ["cat_small"; "dog_small"] = Z.min 5 (len (received evs)) ∧
  (len (received evs) < 5 → Z.of_nat (requests evs) = 5 / 80 + 1).
Proof.
  intros evs.
  assert (Hnum : 0 ≤ 5) by lia.
  assert (Hrun : fetch_image_urls Demo.get (Some "key") "cat" 5 "640x480" Demo.start =
                 ({| world := 1%nat; events := evs |}, Return ["cat_small"; "dog_small"]))
    by (vm_compute; reflexivity).
  assert (Hok : existsb refused evs = false) by reflexivity.
  split; [exact Hnum|]. split; [exact Hrun|]. split; [exact Hok|].
  exact (fetch_image_urls_length Demo.get (Some "key") "cat" 5 "640x480" Demo.start
           _ _ evs Hnum Hrun eq_refl Hok).
Defined.

(** X4 for minus five images. *)
Lemma fetch_image_urls_nonpositive_witness :
  -5 ≤ 0 ∧ -5 < 0 ∧
  fetch_image_urls Demo.get (Some "key") "cat" (-5) "640x480" Demo.start =
    (Demo.start, Return []).
Proof.
  assert (Hle : -5 ≤ 0) by lia. assert (Hlt : -5 < 0) by lia.
  split; [exact Hle|]. split; [exact Hlt|].
  exact (proj1 (fetch_image_urls_nonpositive Demo.get (Some "key") "cat" (-5) "640x480"
                  Demo.start Hle) Hlt).
Defined.

(** X5 for a hundred images: two requests. *)
Lemma fetch_image_urls_request_count_witness :
  let evs :=
    [HttpGet (page_request (Some "key") "cat" 100 80 1 []) (Return Demo.page_of_two);
     HttpGet (page_request (Some "key") "cat" 100 80 2 ["cat_small"; "dog_small"])
       (Return Demo.too_many_requests);
     StError "Failed to fetch images: 429"] in
  0 ≤ 100 ∧
  fetch_image_urls Demo.get (Some "key") "cat" 100 "640x480" Demo.start =
    ({| world := 2%nat; events := evs |}, Return []) ∧
  1 ≤ Z.of_nat (requests evs) ≤ 100 / 80 + 1 ∧
  (100 < 80 → requests evs = 1%nat) ∧
  (100 ≤ 1000 → (requests evs ≤ 13)%nat).
Proof.
  intros evs.
  assert (Hnum : 0 ≤ 100) by lia.
  assert (Hrun : fetch_image_urls Demo.get (Some "key") "cat" 100 "640x480" Demo.start =
                 ({| world := 2%nat; events := evs |}, Return []))
    by (vm_compute; reflexivity).
  split; [exact Hnum|]. split; [exact Hrun|].
  exact (fetch_image_urls_request_count Demo.get (Some "key") "cat" 100 "640x480" Demo.start
           _ _ evs Hnum Hrun eq_refl).
Defined.

(** X6 with a keyword of eighty characters. *)
Lemma unencodable_query_aborts_witness :
  let query := "a very long keyword a very long keyword a very long keyword a very long keyword." in
  let e := "Input is too long for context length 77" in
  let s1 := {| world := 1%nat;
               events := [StSpinner "Fetching images...";
                          HttpGet (page_request (Some "key") query 2 80 1 [])
                            (Return Demo.page_of_two)] |} in
  Demo.encode_text query = Raise e ∧
  filter_images Demo.get Demo.encode_text Demo.image_similarity ["a"] query Demo.start =
    (Demo.start, Raise e) ∧
  fetch_button_handler Demo.get (Some "key") Demo.encode_text Demo.image_similarity
    Demo.member_size Demo.directory_size Demo.st_image query 2 "640x480" true Demo.start =
    (s1, Raise e).
Proof.
  intros query e s1.
  assert (Hemb : Demo.encode_text query = Raise e) by reflexivity.
  destruct (unencodable_query_aborts Demo.get (Some "key") Demo.encode_text
              Demo.image_similarity Demo.member_size Demo.directory_size Demo.st_image
              query e Hemb)
    as [Hfilter Hhandler].
  split; [exact Hemb|]. split; [apply Hfilter|].
  apply (Hhandler 2 "640x480" Demo.start s1 ["cat_small"; "dog_small"]);
    [discriminate|vm_compute; reflexivity].
Defined.

(** X7 on a list whose second URL cannot be reached. *)
Lemma filter_images_log_witness :
  let urls := ["a"; "down"; "c"] in
  let evs := [HttpGet (image_request "a") (Return (Demo.found [Byte.x01]));
              HttpGet (image_request "down") (Raise "Connection refused");
              StError "Error processing image: Connection refused";
              HttpGet (image_request "c") (Return (Demo.found [Byte.x03]))] in
  Demo.encode_text "cat" = Return tt ∧
  filter_images Demo.get Demo.encode_text Demo.image_similarity urls "cat" Demo.start =
    ({| world := 3%nat; events := evs |}, Return ["a"; "c"]) ∧
  filter is_request evs =
    zip_with (λ url o, HttpGet (image_request url) o) urls
      (answers Demo.get urls (world Demo.start)) ∧
  (∀ msg, StError msg ∈ evs ↔
     ∃ (i : nat) url o e,
       urls !! i = Some url ∧ answers Demo.get urls (world Demo.start) !! i = Some o ∧
       scoring_error Demo.image_similarity tt o = Some e ∧
       msg = "Error processing image: " +:+ e).
Proof.
  intros urls evs.
  assert (Hemb : Demo.encode_text "cat" = Return tt) by reflexivity.
  assert (Hrun : filter_images Demo.get Demo.encode_text Demo.image_similarity urls "cat"
                   Demo.start = ({| world := 3%nat; events := evs |}, Return ["a"; "c"]))
    by (vm_compute; reflexivity).
  split; [exact Hemb|]. split; [exact Hrun|].
  exact (filter_images_log Demo.get Demo.encode_text Demo.image_similarity urls "cat" tt
           Demo.start _ _ evs Hemb Hrun eq_refl).
Defined.

(** X8 on the host of placeholders. *)
Lemma filter_keeps_what_zip_skips_witness :
  let urls := ["x"; "y"] in
  let resps := [Worlds.missing; Worlds.missing] in
  Demo.encode_text "cat" = Return tt ∧
  answers Worlds.placeholder_get urls (world Demo.start) = Return <$> resps ∧
  (∃ s', filter_images Worlds.placeholder_get Demo.encode_text Demo.image_similarity
           urls "cat" Demo.start = (s', Return urls)) ∧
  (∃ s' zip_buffer,
     download_images_as_zip Worlds.placeholder_get Demo.member_size Demo.directory_size
       urls Demo.start = (s', Return zip_buffer) ∧
     members zip_buffer = []).
Proof.
  intros urls resps.
  assert (Hemb : Demo.encode_text "cat" = Return tt) by reflexivity.
  assert (Hanswers : answers Worlds.placeholder_get urls (world Demo.start) = Return <$> resps)
    by reflexivity.
  assert (Hall : Forall (λ r, status_code r ≠ 200 ∧
                              ∃ x, Demo.image_similarity tt (content r) = Return x ∧
                                   exceeds literal_0_2 x) resps).
  { repeat constructor; try discriminate.
    all: exists (Finite (3 # 10)); split; [reflexivity|]; reflexivity. }
  split; [exact Hemb|]. split; [exact Hanswers|].
  exact (filter_keeps_what_zip_skips Worlds.placeholder_get Demo.encode_text
           Demo.image_similarity Demo.member_size Demo.directory_size urls "cat" tt
           Demo.start resps Hemb Hanswers Hall).
Defined.

(** X10 on two URLs that are both found. *)
Lemma download_images_as_zip_complete_witness :
  let urls := ["a"; "b"] in
  let resps := [Demo.found [Byte.x01]; Demo.found [Byte.x02]] in
  answers Demo.get urls (world Demo.start) = Return <$> resps ∧
  Forall (λ r, status_code r = 200) resps ∧
  ∃ s' zip_buffer,
    download_images_as_zip Demo.get Demo.member_size Demo.directory_size urls Demo.start =
      (s', Return zip_buffer) ∧
    members zip_buffer =
      imap (λ i r, ("image_" +:+ pretty (Z.of_nat i + 1) +:+ ".jpg", content r)) resps ∧
    length (members zip_buffer) = length urls.
Proof.
  intros urls resps.
  assert (Hanswers : answers Demo.get urls (world Demo.start) = Return <$> resps)
    by reflexivity.
  assert (Hall : Forall (λ r, status_code r = 200) resps) by (repeat constructor).
  split; [exact Hanswers|]. split; [exact Hall|].
  exact (download_images_as_zip_complete Demo.get Demo.member_size Demo.directory_size
           urls Demo.start resps Hanswers Hall).
Defined.

(** X11 on an unreachable and a missing URL: one report, for the second
    download. *)
Lemma download_images_as_zip_log_witness :
  let urls := ["a"; "down"; "gone"] in
  let evs := [HttpGet (image_request "a") (Return (Demo.found [Byte.x01]));
              HttpGet (image_request "down") (Raise "Connection refused");
              StError "Error downloading image 2: Connection refused";
              HttpGet (image_request "gone") (Return Demo.not_found)] in
  let zip_buffer := {| members := [("image_1.jpg", [Byte.x01])]; closed := true; pos := 0 |} in
  download_images_as_zip Demo.get Demo.member_size Demo.directory_size urls Demo.start =
    ({| world := 3%nat; events := evs |}, Return zip_buffer) ∧
  filter is_request evs =
    zip_with (λ url o, HttpGet (image_request url) o) urls
      (answers Demo.get urls (world Demo.start)) ∧
  (∀ msg, StError msg ∈ evs ↔
     ∃ (i : nat) url e,
       urls !! i = Some url ∧
       answers Demo.get urls (world Demo.start) !! i = Some (Raise e) ∧
       msg = "Error downloading image " +:+ pretty (Z.of_nat i + 1) +:+ ": " +:+ e).
Proof.
  intros urls evs zip_buffer.
  assert (Hrun : download_images_as_zip Demo.get Demo.member_size Demo.directory_size
                   urls Demo.start =
                 ({| world := 3%nat; events := evs |}, Return zip_buffer))
    by (vm_compute; reflexivity).
  split; [exact Hrun|].
  exact (download_images_as_zip_log Demo.get Demo.member_size Demo.directory_size urls
           Demo.start _ _ evs Hrun eq_refl).
Defined.

(** X12 on two URLs: the second thumbnail is in the second of two columns. *)
Lemma thumbnails_in_columns_witness :
  let image_urls := [Worlds.cat_url; Worlds.dog_url] in
  let result := show_block Worlds.web_get Demo.member_size Demo.directory_size Demo.st_image
                  "cat" image_urls Demo.start in
  image_urls ≠ [] ∧
  StImage 1 Worlds.dog_url ∈ events result.1 ∧
  0 ≤ 1 < Z.min 5 (len image_urls) ∧
  ∃ k : nat, (k < 20)%nat ∧ image_urls !! k = Some Worlds.dog_url ∧
             1 = Z.of_nat k mod Z.min 5 (len image_urls).
Proof.
  intros image_urls result.
  assert (Hne : image_urls ≠ []) by discriminate.
  assert (Hin : StImage 1 Worlds.dog_url ∈ events result.1)
    by (vm_compute; do 3 right; left).
  split; [exact Hne|]. split; [exact Hin|].
  exact (thumbnails_in_columns Worlds.web_get Demo.member_size Demo.directory_size
           Demo.st_image "cat" image_urls Demo.start result.1 result.2 (events result.1)
           1 Worlds.dog_url Hne (surjective_pairing result) eq_refl Hin).
Defined.

(** X13 on a search API that refuses. *)
Lemma handler_on_refusal_witness :
  let rq := page_request (Some "key") "cat" 10 80 1 [] in
  "cat" ≠ "" ∧ 0 ≤ 10 ∧
  Worlds.busy_get rq (world Demo.start) = (1%nat, Return Demo.too_many_requests) ∧
  status_code Demo.too_many_requests ≠ 200 ∧
  fetch_button_handler Worlds.busy_get (Some "key") Demo.encode_text Demo.image_similarity
    Demo.member_size Demo.directory_size Demo.st_image "cat" 10 "640x480" false Demo.start =
    ({| world := 1%nat;
        events := events Demo.start ++
          [StSpinner "Fetching images...";
           HttpGet rq (Return Demo.too_many_requests);
           StError ("Failed to fetch images: " +:+ pretty (status_code Demo.too_many_requests))] |},
     Return tt).
Proof.
  intros rq.
  assert (Hquery : "cat" ≠ "") by discriminate.
  assert (Hnum : 0 ≤ 10) by lia.
  assert (Hget : Worlds.busy_get rq (world Demo.start) =
                 (1%nat, Return Demo.too_many_requests)) by reflexivity.
  assert (Hcode : status_code Demo.too_many_requests ≠ 200) by discriminate.
  split; [exact Hquery|]. split; [exact Hnum|]. split; [exact Hget|]. split; [exact Hcode|].
  apply (handler_on_refusal Worlds.busy_get (Some "key") Demo.encode_text
           Demo.image_similarity Demo.member_size Demo.directory_size Demo.st_image "cat" 10 "640x480"
           false Demo.start 1%nat Demo.too_many_requests Hquery Hnum Hget Hcode).
  discriminate.
Defined.

(** X14 on a search of the web: the cat scores 0.3 and is kept, the dog is
    dropped; the cat is downloaded again, from the world after the filter. *)
Lemma handler_downloads_again_witness :
  let urls := [Worlds.cat_url; Worlds.dog_url] in
  let s1 := {| world := 1%nat;
               events := [StSpinner "Fetching images...";
                          HttpGet (page_request (Some "key") "cat" 2 80 1 [])
                            (Return Worlds.web_page)] |} in
  let image_urls := kept Demo.image_similarity tt urls
                      (answers Worlds.web_get urls (world s1)) in
  let w := world_after Worlds.web_get urls (world s1) in
  "cat" ≠ "" ∧
  Demo.encode_text "cat" = Return tt ∧
  image_urls = [Worlds.cat_url] ∧
  Forall (λ url, Demo.st_image url = Return tt) (take 20 image_urls) ∧
  ∃ s',
    fetch_button_handler Worlds.web_get (Some "key") Demo.encode_text Demo.image_similarity
      Demo.member_size Demo.directory_size Demo.st_image "cat" 2 "640x480" true Demo.start =
      (s', Return tt) ∧
    world s' = world_after Worlds.web_get image_urls w ∧
    last (events s') = Some
      (StDownloadButton "📥 Download All Images as ZIP"
         {| members := archive 0 (answers Worlds.web_get image_urls w);
            closed := true; pos := 0 |}
         ("cat" +:+ "_images.zip") "application/zip").
Proof.
  intros urls s1 image_urls w.
  assert (Hquery : "cat" ≠ "") by discriminate.
  assert (Hemb : Demo.encode_text "cat" = Return tt) by reflexivity.
  assert (Hkept : image_urls = [Worlds.cat_url]) by (vm_compute; reflexivity).
  assert (Hshown : Forall (λ url, Demo.st_image url = Return tt) (take 20 image_urls))
    by (rewrite Hkept; repeat constructor).
  split; [exact Hquery|]. split; [exact Hemb|]. split; [exact Hkept|].
  split; [exact Hshown|].
  apply (handler_downloads_again Worlds.web_get (Some "key") Demo.encode_text
           Demo.image_similarity Demo.member_size Demo.directory_size Demo.st_image
           "cat" 2 "640x480" tt Demo.start s1 urls Hquery Hemb).
  - vm_compute. reflexivity.
  - fold image_urls. rewrite Hkept. discriminate.
  - exact Hshown.
Defined.

Lemma preview_stops_at_rejected_url_witness :
  let image_urls := ["cat_small"; "dog_small"] in
  let block := fetch_block Demo.get (Some "key") Demo.encode_text Demo.image_similarity
                 "cat" 2 "640x480" false Demo.start in
  "cat" ≠ "" ∧
  block = (block.1, Return image_urls) ∧
  (0 < 20)%nat ∧
  image_urls !! 0%nat = Some "cat_small" ∧
  Forall (λ u, Demo.st_image u = Return tt) (take 0 image_urls) ∧
  Demo.st_image "cat_small" = Raise "Error opening 'cat_small'" ∧
  fetch_button_handler Demo.get (Some "key") Demo.encode_text Demo.image_similarity
    Demo.member_size Demo.directory_size Demo.st_image "cat" 2 "640x480" false
    Demo.start =
    ({| world := world block.1;
        events := events block.1 ++
          [StSuccess "Fetched 2 images successfully! 🎉"; StColumns 2] |},
     Raise "Error opening 'cat_small'").
Proof.
  intros image_urls block.
  assert (Hquery : "cat" ≠ "") by discriminate.
  assert (Hblock : block = (block.1, Return image_urls))
    by (vm_compute; reflexivity).
  assert (Hk : (0 < 20)%nat) by lia.
  assert (Hlook : image_urls !! 0%nat = Some "cat_small") by reflexivity.
  assert (Hbefore : Forall (λ u, Demo.st_image u = Return tt) (take 0 image_urls))
    by constructor.
  assert (Hurl : Demo.st_image "cat_small" = Raise "Error opening 'cat_small'")
    by reflexivity.
  split_and!; [exact Hquery|exact Hblock|exact Hk|exact Hlook|exact Hbefore|exact Hurl|].
  rewrite (preview_stops_at_rejected_url Demo.get (Some "key") Demo.encode_text
             Demo.image_similarity Demo.member_size Demo.directory_size Demo.st_image
             "cat" 2 "640x480" false Demo.start
             block.1 image_urls 0 "cat_small" "Error opening 'cat_small'"
             Hquery Hblock Hk Hlook Hbefore Hurl).
  reflexivity.
Defined.

(** X15 from a session that holds two entries. *)
Lemma clear_resets_and_reruns_witness :
  let inp := {| typed := "cat"; number := 2; selected := "640x480"; checked := false;
                clicked := String.eqb "Clear Images" |} in
  let p := {| page_world := 0%nat; page_log := [];
              session_state := {[ "image_urls" := ["old"]; "theme" := ["dark"] ]} |} in
  let result := script Demo.get (Some "key") Demo.encode_text Demo.image_similarity
                  Demo.member_size Demo.directory_size Demo.st_image inp p in
  clicked inp "Clear Images" = true ∧
  result.2 = Rerun ∧
  session_state result.1 !! "image_urls" = Some [] ∧
  session_state result.1 !! "theme" = Some ["dark"] ∧
  last (page_log result.1) = Some (SidebarButton "Clear Images").
Proof.
  intros inp p result.
  assert (Hclear : clicked inp "Clear Images" = true) by reflexivity.
  split; [exact Hclear|].
  destruct (clear_resets_and_reruns Demo.get (Some "key") Demo.encode_text
              Demo.image_similarity Demo.member_size Demo.directory_size Demo.st_image inp p
              Demo.start result.1 result.2 Hclear eq_refl (surjective_pairing result))
    as (Hc & Hkey & Hother & Hlast).
  split; [exact Hc|]. split; [exact Hkey|]. split; [|exact Hlast].
  rewrite (Hother "theme") by discriminate. reflexivity.
Defined.

(** X16 without network. *)
Lemma page_stops_on_request_error_witness :
  let inp := {| typed := "cat"; number := 2; selected := "640x480"; checked := false;
                clicked := String.eqb "Fetch Images" |} in
  let p := {| page_world := 0%nat; page_log := []; session_state := ∅ |} in
  let result := script Worlds.offline_get (Some "key") Demo.encode_text Demo.image_similarity
                  Demo.member_size Demo.directory_size Demo.st_image inp p in
  clicked inp "Fetch Images" = true ∧ typed inp ≠ "" ∧ 0 ≤ number inp ∧
  result.2 = Stop "Connection refused" ∧
  page_world result.1 = 1%nat ∧
  session_state result.1 = session_state p ∧
  page_log result.1 = page_log p ++ header ++
    [App (StSpinner "Fetching images...");
     App (HttpGet (page_request (Some "key") (typed inp) (number inp) 80 1 [])
            (Raise "Connection refused"))].
Proof.
  intros inp p result.
  assert (Hfetch : clicked inp "Fetch Images" = true) by reflexivity.
  assert (Hquery : typed inp ≠ "") by discriminate.
  assert (Hnum : 0 ≤ number inp) by (simpl; lia).
  split; [exact Hfetch|]. split; [exact Hquery|]. split; [exact Hnum|].
  exact (page_stops_on_request_error Worlds.offline_get (Some "key") Demo.encode_text
           Demo.image_similarity Demo.member_size Demo.directory_size Demo.st_image inp p 1%nat
           "Connection refused" result.1 result.2 Hfetch Hquery Hnum eq_refl
           (surjective_pairing result)).
Defined.

(** X17 when no button was clicked. *)
Lemma page_idle_without_fetch_witness :
  let inp := {| typed := "cat"; number := 2; selected := "640x480"; checked := true;
                clicked := λ _, false |} in
  let p := {| page_world := 0%nat; page_log := []; session_state := ∅ |} in
  let result := script Demo.get (Some "key") Demo.encode_text Demo.image_similarity
                  Demo.member_size Demo.directory_size Demo.st_image inp p in
  (clicked inp "Fetch Images" = false ∨ typed inp = "") ∧
  page_world result.1 = page_world p ∧
  ∃ evs, page_log result.1 = page_log p ++ evs ∧ ∀ rq r, App (HttpGet rq r) ∉ evs.
Proof.
  intros inp p result.
  assert (Hidle : clicked inp "Fetch Images" = false ∨ typed inp = "") by (by left).
  split; [exact Hidle|].
  exact (page_idle_without_fetch Demo.get (Some "key") Demo.encode_text
           Demo.image_similarity Demo.member_size Demo.directory_size Demo.st_image inp p
           result.1 result.2 Hidle (surjective_pairing result)).
Defined.

(** X18 on a fetch from an empty and from a filled session. *)
Lemma page_ignores_session_state_witness :
  let inp := {| typed := "cat"; number := 2; selected := "640x480"; checked := false;
                clicked := String.eqb "Fetch Images" |} in
  let p := {| page_world := 0%nat; page_log := []; session_state := ∅ |} in
  let ss : gmap string (list string) := {[ "image_urls" := ["old"] ]} in
  let r1 := script Demo.get (Some "key") Demo.encode_text Demo.image_similarity
              Demo.member_size Demo.directory_size Demo.st_image inp p in
  let r2 := script Demo.get (Some "key") Demo.encode_text Demo.image_similarity
              Demo.member_size Demo.directory_size Demo.st_image inp
              {| page_world := page_world p; page_log := page_log p;
                 session_state := ss |} in
  page_world r1.1 = page_world r2.1 ∧ page_log r1.1 = page_log r2.1 ∧ r1.2 = r2.2.
Proof.
  intros inp p ss r1 r2.
  exact (page_ignores_session_state Demo.get (Some "key") Demo.encode_text
           Demo.image_similarity Demo.member_size Demo.directory_size Demo.st_image inp p ss
           r1.1 r1.2 r2.1 r2.2 (surjective_pairing r1) (surjective_pairing r2)).
Defined.
